(** * disasterConnect: the peer mesh messaging core, embedded in Rocq.

    Shallow embedding of the Python sources under [src/]:
    - [pythonEngine/message_router.py]  (pending acknowledgements),
    - [pythonEngine/store_forward.py]   (store-and-forward buffer),
    - [p2p/host.py]                     (peer directory, send, broadcast),
    - [p2p/chatroom.py]                 (room log, publish, inbound handler),
    - [p2p/discovery.py]                (UDP discovery listener).

    Python dicts are insertion-ordered association lists ([PyDict]);
    network outcomes (whether a connect/send succeeds) are oracles passed
    as arguments, since they are decided by the environment. *)

From Stdlib Require Import String List Bool ZArith Lia.
From Stdlib Require QArith_base OrderedTypeEx.
Import ListNotations.
Open Scope string_scope.
Open Scope list_scope.

(** ** Python dicts with string keys *)
Module PyDict.
Section Dict.
Variable V : Type.

Definition dict := list (string * V).

(** [d.get(k)] *)
Fixpoint get (k : string) (d : dict) : option V :=
  match d with
  | [] => None
  | (k', v) :: t => if String.eqb k k' then Some v else get k t
  end.

(** [k in d] *)
Definition mem (k : string) (d : dict) : bool :=
  match get k d with Some _ => true | None => false end.

(** [d[k] = v]: an existing key keeps its position, a new key goes last. *)
Fixpoint setitem (k : string) (v : V) (d : dict) : dict :=
  match d with
  | [] => [(k, v)]
  | (k', v') :: t =>
      if String.eqb k k' then (k, v) :: t else (k', v') :: setitem k v t
  end.

(** [d.pop(k, None)] *)
Fixpoint pop (k : string) (d : dict) : dict :=
  match d with
  | [] => []
  | (k', v') :: t => if String.eqb k k' then t else (k', v') :: pop k t
  end.

End Dict.
Arguments get {V}. Arguments mem {V}. Arguments setitem {V}. Arguments pop {V}.
End PyDict.
Import PyDict.

(** ** [pythonEngine/message_router.py]: pending acknowledgements *)
Module MessageRouter.

(** [pending_acks = {}]: message id -> set of awaited peers. *)
Definition pending := dict (list string).

(** [register_ack(msg_id, peers)]: [pending_acks[msg_id] = set(peers)]. *)
Definition register_ack (msg_id : string) (peers : list string)
    (pa : pending) : pending :=
  setitem msg_id (nodup string_dec peers) pa.

(** [handle_ack(msg_id)]: [pending_acks.pop(msg_id, None)]. *)
Definition handle_ack (msg_id : string) (pa : pending) : pending :=
  pop msg_id pa.

(** An inbound ACK envelope, as [peer_server.handle_client] sees it: the
    acknowledged id [msg["payload"]["ack_id"]] and the acknowledging peer
    (the connection's address). *)
Record ack := { ack_id : string; ack_from : string }.

(** [handle_client] on an ACK envelope: [handle_ack(msg["payload"]["ack_id"])];
    the acknowledging peer is not passed on. *)
Definition on_ack (a : ack) (pa : pending) : pending :=
  handle_ack (ack_id a) pa.

Definition on_acks (r : list ack) (pa : pending) : pending :=
  fold_left (fun p a => on_ack a p) r pa.

(** [wait_for_acks(msg_id)]: [SOS_RETRY_COUNT] rounds; in each round the
    thread sleeps [SOS_ACK_TIMEOUT] (the ACKs [r] of that round are handled
    meanwhile by the server threads) and then returns [True] when [msg_id]
    is no longer pending.  [rounds] has one entry per round, so its length
    is [SOS_RETRY_COUNT]. *)
Fixpoint wait_for_acks (msg_id : string) (rounds : list (list ack))
    (pa : pending) : bool :=
  match rounds with
  | [] => false
  | r :: rs =>
      let pa' := on_acks r pa in
      if negb (mem msg_id pa') then true else wait_for_acks msg_id rs pa'
  end.

End MessageRouter.

(** ** [pythonEngine/store_forward.py]: the store-and-forward buffer *)
Module StoreForward.
Section Buffer.
(** The envelopes, as built by [message_protocol.create_message]. *)
Variable msg : Type.

(** The module state: the in-memory [buffer] (peer ip -> queued envelopes)
    and the content of [BUFFER_FILE] ([None] while the file does not
    exist).  [json.dump]/[json.load] round-trip the JSON data that
    [create_message] builds, so the file holds the dumped mapping itself. *)
Record sf_state := { buffer : dict (list msg); disk : option (dict (list msg)) }.

(** [load_buffer()] *)
Definition load_buffer (s : sf_state) : sf_state :=
  match disk s with
  | Some b => {| buffer := b; disk := disk s |}
  | None => s
  end.

(** [save_buffer()] *)
Definition save_buffer (s : sf_state) : sf_state :=
  {| buffer := buffer s; disk := Some (buffer s) |}.

(** [buffer.setdefault(ip, []).append(message)] *)
Definition setdefault_append (ip : string) (m : msg) (b : dict (list msg))
    : dict (list msg) :=
  let q := match get ip b with Some q => q | None => [] end in
  setitem ip (q ++ [m])%list b.

(** [buffer_message(ip, message)] *)
Definition buffer_message (ip : string) (m : msg) (s : sf_state) : sf_state :=
  save_buffer {| buffer := setdefault_append ip m (buffer s); disk := disk s |}.

(** A process restart: the module is re-imported ([buffer = {}]) and
    [load_buffer()] reads the file back. *)
Definition restart (s : sf_state) : sf_state :=
  load_buffer {| buffer := []; disk := disk s |}.

(** The [for msg in msgs] loop of [flush_buffer]: [send_func i m] is the
    outcome of the [i]-th call [send_func(ip, port, msg)] of the pass.
    Returns the envelopes attempted, in order, and [remaining]. *)
Fixpoint flush_loop (send_func : nat -> msg -> bool) (i : nat) (msgs : list msg)
    : list msg * list msg :=
  match msgs with
  | [] => ([], [])
  | m :: t =>
      let '(att, remaining) := flush_loop send_func (S i) t in
      (m :: att, if send_func i m then remaining else m :: remaining)
  end.

(** [flush_buffer(ip, port, send_func)]; the port only reaches [send_func],
    which [send_func] already stands for. *)
Definition flush_buffer (ip : string) (send_func : nat -> msg -> bool)
    (s : sf_state) : list msg * sf_state :=
  let msgs := match get ip (buffer s) with Some q => q | None => [] end in
  let '(att, remaining) := flush_loop send_func 0 msgs in
  (att, save_buffer {| buffer := setitem ip remaining (buffer s); disk := disk s |}).

(** The envelopes of [msgs] whose attempt fails, by position. *)
Definition failed_of (send_func : nat -> msg -> bool) (msgs : list msg) : list msg :=
  map snd (filter (fun '(i, m) => negb (send_func i m))
                  (combine (seq 0 (length msgs)) msgs)).

End Buffer.
Arguments buffer {msg}. Arguments disk {msg}. Arguments Build_sf_state {msg}.
Arguments load_buffer {msg}. Arguments save_buffer {msg}.
Arguments setdefault_append {msg}. Arguments buffer_message {msg}.
Arguments restart {msg}. Arguments flush_loop {msg}.
Arguments flush_buffer {msg}. Arguments failed_of {msg}.
End StoreForward.

(** ** JSON data as the p2p code handles it *)
Module Json.

(** JSON scalars ([json.loads] gives [None], [bool], [int], [str]). *)
Inductive scalar := SNone | SBool (b : bool) | SInt (z : Z) | SStr (s : string).

(** Python's [==] on these values ([True == 1], [False == 0]). *)
Definition py_eq (a b : scalar) : bool :=
  match a, b with
  | SNone, SNone => true
  | SBool x, SBool y => Bool.eqb x y
  | SInt x, SInt y => Z.eqb x y
  | SStr x, SStr y => String.eqb x y
  | SBool x, SInt y => Z.eqb (Z.b2z x) y
  | SInt x, SBool y => Z.eqb x (Z.b2z y)
  | _, _ => false
  end.

(** Python truthiness. *)
Definition truthy (a : scalar) : bool :=
  match a with
  | SNone => false
  | SBool b => b
  | SInt z => negb (Z.eqb z 0)
  | SStr s => negb (String.eqb s "")
  end.

(** Values of a message dict: a scalar or a nested dict of scalars
    ([asdict(chat_msg)] under ['data']). *)
Inductive value := VScalar (s : scalar) | VDict (d : dict scalar).

(** [d.get(k) == s] for a Python string [s]. *)
Definition get_is_str (k : string) (d : dict value) (s : string) : bool :=
  match get k d with
  | Some (VScalar x) => py_eq x (SStr s)
  | _ => false
  end.

End Json.
Import Json.

(** ** [p2p/host.py]: the peer directory and outbound sends *)
Module Host.

(** [self.peer_id] and [self.peers: Dict[str, Tuple[str, int]]]. *)
Record host := { host_peer_id : string; peers : dict (string * Z) }.

(** The network: [net i ip port] is the outcome of the [i]-th
    connect-and-send attempt of one operation to [(ip, port)]. *)
Definition network := nat -> string -> Z -> bool.

(** The message dicts live in a store, so that a dict the caller passes
    in is the very object the callee mutates; a reference is an index. *)
Definition heap := list (dict value).

Fixpoint heap_set (l : nat) (o : dict value) (h : heap) : heap :=
  match h, l with
  | [], _ => []
  | _ :: t, O => o :: t
  | x :: t, S l' => x :: heap_set l' o t
  end.

(** One outbound attempt: peer id, address, the JSON payload written to
    the socket ([json.dumps] of the dict) and whether it succeeded. *)
Record attempt := {
  at_peer : string; at_ip : string; at_port : Z;
  at_payload : dict value; at_ok : bool }.

(** [_send_to_peer(peer_id, message)]; the leading underscore dropped.
    A missing peer raises [KeyError], caught by the same handler, whose
    [pop] is then a no-op. *)
Definition send_to_peer (hst : host) (net : network) (peer_id : string)
    (message : dict value) : host * list attempt :=
  match get peer_id (peers hst) with
  | None => ({| host_peer_id := host_peer_id hst;
                peers := pop peer_id (peers hst) |}, [])
  | Some (ip, port) =>
      let ok := net 0 ip port in
      let a := {| at_peer := peer_id; at_ip := ip; at_port := port;
                  at_payload := message; at_ok := ok |} in
      if ok then (hst, [a])
      else ({| host_peer_id := host_peer_id hst;
               peers := pop peer_id (peers hst) |}, [a])
  end.

(** [connect_to_peer(peer_ip, peer_port, peer_id)]: no exception escapes
    [_send_to_peer], so the result is always [True]. *)
Definition connect_to_peer (hst : host) (net : network) (peer_ip : string)
    (peer_port : Z) (peer_id : string) : bool * host * list attempt :=
  let hst1 := {| host_peer_id := host_peer_id hst;
                 peers := setitem peer_id (peer_ip, peer_port) (peers hst) |} in
  let handshake := [("type", VScalar (SStr "handshake"));
                    ("peer_id", VScalar (SStr (host_peer_id hst)))] in
  let '(hst2, tr) := send_to_peer hst1 net peer_id handshake in
  (true, hst2, tr).

(** The [for peer_id, (ip, port) in peers_copy] loop of [broadcast_message]. *)
Fixpoint broadcast_loop (net : network) (i : nat) (payload : dict value)
    (peers_copy : dict (string * Z)) : nat * list attempt :=
  match peers_copy with
  | [] => (0, [])
  | (peer_id, (ip, port)) :: t =>
      let ok := net i ip port in
      let '(n, tr) := broadcast_loop net (S i) payload t in
      ((if ok then S n else n),
       {| at_peer := peer_id; at_ip := ip; at_port := port;
          at_payload := payload; at_ok := ok |} :: tr)
  end.

(** [broadcast_message(message)] on the dict at reference [loc]: returns
    [successful_sends], the attempts, the host and the store.  A Python
    reference always points to an object: the [None] branch is dead. *)
Definition broadcast_message (hst : host) (net : network) (loc : nat) (h : heap)
    : nat * list attempt * host * heap :=
  match nth_error h loc with
  | None => (0, [], hst, h)
  | Some message =>
      let message' := setitem "peer_id" (VScalar (SStr (host_peer_id hst))) message in
      let h' := heap_set loc message' h in
      let peers_copy := peers hst in
      let '(n, tr) := broadcast_loop net 0 message' peers_copy in
      (n, tr, hst, h')
  end.

(** [pythonEngine/peer_client.send_message(ip, port, msg)]: on failure
    the envelope is buffered for [ip]; there is no directory to touch. *)
Definition send_message {msg : Type} (net : network) (ip : string) (port : Z)
    (m : msg) (sf : StoreForward.sf_state msg) : bool * StoreForward.sf_state msg :=
  if net 0 ip port then (true, sf) else (false, StoreForward.buffer_message ip m sf).

End Host.

(** ** [p2p/chatroom.py]: the room log *)
Module ChatRoom.
Import Host.

(** [@dataclass ChatMessage]; the fields hold whatever the JSON gave. *)
Record ChatMessage := {
  Message : scalar; SenderID : scalar; SenderNick : scalar; Timestamp : scalar }.

(** [asdict(chat_msg)] *)
Definition asdict (c : ChatMessage) : dict scalar :=
  [("Message", Message c); ("SenderID", SenderID c);
   ("SenderNick", SenderNick c); ("Timestamp", Timestamp c)].

Definition field_names := ["Message"; "SenderID"; "SenderNick"; "Timestamp"].

(** [ChatMessage] called with the keywords of [data], with [__post_init__], at wall-clock time [now]
    ([datetime.now().isoformat()]).  [None] is the [TypeError] raised for
    a non-mapping, an unknown keyword or a missing required field. *)
Definition mk_chat_message (data : value) (now : string) : option ChatMessage :=
  match data with
  | VScalar _ => None
  | VDict d =>
      if forallb (fun '(k, _) => existsb (String.eqb k) field_names) d then
        match get "Message" d, get "SenderID" d, get "SenderNick" d with
        | Some m, Some s, Some n =>
            let ts := match get "Timestamp" d with
                      | None | Some SNone => SStr now
                      | Some t => t
                      end in
            Some {| Message := m; SenderID := s; SenderNick := n; Timestamp := ts |}
        | _, _, _ => None
        end
      else None
  end.

(** [self.room_name], [self.nickname], [self.peer_id], [self.messages]. *)
Record room := {
  room_name : string; nickname : string; room_peer_id : string;
  messages : list ChatMessage }.

Definition with_messages (r : room) (l : list ChatMessage) : room :=
  {| room_name := room_name r; nickname := nickname r;
     room_peer_id := room_peer_id r; messages := l |}.

(** The duplicate test of [_handle_incoming_message]. *)
Definition same_tuple (c m : ChatMessage) : bool :=
  py_eq (SenderID m) (SenderID c) && py_eq (Message m) (Message c)
  && py_eq (Timestamp m) (Timestamp c).

(** [message_data.get('data', {})] *)
Definition inbound_data (message_data : dict value) : value :=
  match get "data" message_data with Some v => v | None => VDict [] end.

(** [_handle_incoming_message(message_data)]; every exception is caught
    and leaves the log as it was. *)
Definition handle_incoming_message (r : room) (now : string)
    (message_data : dict value) : room :=
  if negb (get_is_str "type" message_data "chat_message") then r else
  if negb (get_is_str "room" message_data (room_name r)) then r else
  match mk_chat_message (inbound_data message_data) now with
  | None => r
  | Some chat_msg =>
      if py_eq (SenderID chat_msg) (SStr (room_peer_id r)) then r
      else if existsb (same_tuple chat_msg) (messages r) then r
      else with_messages r (messages r ++ [chat_msg])
  end.

(** A sequence of inbound envelopes, each with its arrival time. *)
Fixpoint handle_all (r : room) (inbound : list (string * dict value)) : room :=
  match inbound with
  | [] => r
  | (now, md) :: t => handle_all (handle_incoming_message r now md) t
  end.

(** [clear_messages()] *)
Definition clear_messages (r : room) : room := with_messages r [].

(** [publish(message)] at time [now]: the broadcast dict is a fresh
    object, allocated at the end of the store.  No statement of the [try]
    block can raise here, so the [except] branch is not modelled. *)
Definition publish (r : room) (hst : host) (net : network) (h : heap)
    (message : string) (now : string)
    : bool * room * host * heap * list attempt :=
  let chat_msg := {| Message := SStr message; SenderID := SStr (room_peer_id r);
                     SenderNick := SStr (nickname r); Timestamp := SStr now |} in
  let r1 := with_messages r (messages r ++ [chat_msg]) in
  let broadcast_data := [("type", VScalar (SStr "chat_message"));
                         ("room", VScalar (SStr (room_name r)));
                         ("data", VDict (asdict chat_msg))] in
  let loc := length h in
  let '(success_count, tr, hst', h') :=
      broadcast_message hst net loc (h ++ [broadcast_data]) in
  (Nat.ltb 0 success_count, r1, hst', h', tr).

(** The operations a room goes through. *)
Inductive room_op :=
  | OpPublish (message now : string) (net : network)
  | OpIncoming (now : string) (message_data : dict value)
  | OpClear.

(** The room's part of each operation (the host and the store are
    threaded by [publish] but do not affect the log). *)
Definition room_step (hst : host) (h : heap) (r : room) (op : room_op) : room :=
  match op with
  | OpPublish m now net =>
      let '(_, r', _, _, _) := publish r hst net h m now in r'
  | OpIncoming now md => handle_incoming_message r now md
  | OpClear => clear_messages r
  end.

(** A room right after [ChatRoom.__init__], then a run of operations. *)
Definition new_room (name nick pid : string) : room :=
  {| room_name := name; nickname := nick; room_peer_id := pid; messages := [] |}.

Definition run_room (hst : host) (h : heap) (r : room) (ops : list room_op) : room :=
  fold_left (room_step hst h) ops r.

End ChatRoom.

(** ** [p2p/discovery.py]: the UDP listener *)
Module Discovery.

(** A received datagram: sender ip and the decoded JSON object ([None] for
    anything [json.loads] rejects or that is not an object, where the
    listener's [except] branch drops it). *)
Record datagram := { dg_ip : string; dg_body : option (dict scalar) }.

(** [self.peer_id], [self.rendezvous], [self.discovered_peers] and the
    calls made so far to [self.on_peer_found(peer_id, peer_ip, peer_port)]
    ([peer_port] is [message.get('p2p_port')]). *)
Record listener := {
  disc_peer_id : string; rendezvous : string;
  discovered_peers : list scalar;
  found : list (scalar * string * option scalar) }.

(** [message.get(k) == s] for a Python string [s]. *)
Definition get_eq_str (k : string) (m : dict scalar) (s : string) : bool :=
  match get k m with Some x => py_eq x (SStr s) | None => false end.

(** [x in self.discovered_peers] *)
Definition in_set (x : scalar) (l : list scalar) : bool := existsb (py_eq x) l.

(** One iteration of the [while self.running] loop of [_listen_for_peers]. *)
Definition listen_step (d : listener) (dg : datagram) : listener :=
  match dg_body dg with
  | None => d
  | Some message =>
      if get_eq_str "peer_id" message (disc_peer_id d) then d
      else if negb (get_eq_str "rendezvous" message (rendezvous d)) then d
      else match get "peer_id" message with
           | Some peer_id =>
               if truthy peer_id && negb (in_set peer_id (discovered_peers d)) then
                 {| disc_peer_id := disc_peer_id d; rendezvous := rendezvous d;
                    discovered_peers := peer_id :: discovered_peers d;
                    found := found d ++ [(peer_id, dg_ip dg, get "p2p_port" message)] |}
               else d
           | None => d
           end
  end.

Definition listen (d : listener) (dgs : list datagram) : listener :=
  fold_left listen_step dgs d.

(** The listener after [init_mdns(peer_id, p2p_port, rendezvous, ...)]. *)
Definition start (peer_id rdv : string) : listener :=
  {| disc_peer_id := peer_id; rendezvous := rdv; discovered_peers := []; found := [] |}.

End Discovery.

(** ** The [pythonEngine] node: protocol, server, discovery, API *)
Module Engine.
Import MessageRouter.

(** [message_protocol.create_message(msg_type, sender, text)]: the dict it
    returns; [payload] holds ["text"] and, for an ACK, ["ack_id"].  The
    fresh [uuid.uuid4()] and [time.time()] are arguments. *)
Record envelope := {
  id : string; type : string; sender : string; timestamp : QArith_base.Q;
  payload : dict scalar }.

Definition create_message (uuid : string) (now : QArith_base.Q) (msg_type sender text : string)
    : envelope :=
  {| id := uuid; type := msg_type; sender := sender; timestamp := now;
     payload := [("text", SStr text)] |}.

(** [peer_server.handle_client(conn, addr)]: [data] is the decoded
    envelope ([None] when nothing was read or [json.loads] failed, both
    ending the thread).  Returns the new [pending_acks] and the reply
    written back on the connection.  A missing ["ack_id"] or ["text"]
    raises [KeyError] and ends the thread; an ["ack_id"] that is not a
    string cannot be a key of [pending_acks], so its [pop] does nothing. *)
Definition handle_client (pa : pending) (data : option envelope)
    (ack_uuid : string) (ack_now : QArith_base.Q) : pending * option envelope :=
  match data with
  | None => (pa, None)
  | Some msg =>
      if String.eqb (type msg) "ACK" then
        match get "ack_id" (payload msg) with
        | Some (SStr k) => (handle_ack k pa, None)
        | _ => (pa, None)
        end
      else
        match get "text" (payload msg) with
        | None => (pa, None)
        | Some _ =>
            if String.eqb (type msg) "SOS" then
              let ack := create_message ack_uuid ack_now "ACK" "local" "" in
              let ack := {| id := id ack; type := type ack; sender := sender ack;
                            timestamp := timestamp ack;
                            payload := setitem "ack_id" (SStr (id msg)) (payload ack) |} in
              (pa, Some ack)
            else (pa, None)
        end
  end.

(** A datagram received by [discovery.listen_for_peers]: source ip and
    the decoded JSON object ([None] when [json.loads] fails or gives no
    object). *)
Record announcement := { an_ip : string; an_info : option (dict scalar) }.

(** One iteration of [listen_for_peers]: [peers[ip] = info["tcp_port"]].
    Nothing catches an exception there, so [None] ends the listener. *)
Definition listen_step (peers : dict scalar) (a : announcement) : option (dict scalar) :=
  match an_info a with
  | None => None
  | Some info =>
      match get "tcp_port" info with
      | None => None
      | Some p => Some (setitem (an_ip a) p peers)
      end
  end.

(** [listen_for_peers()] over a sequence of datagrams: the final [peers]
    and whether the listener thread is still running. *)
Fixpoint listen_for_peers (peers : dict scalar) (anns : list announcement)
    : dict scalar * bool :=
  match anns with
  | [] => (peers, true)
  | a :: t =>
      match listen_step peers a with
      | None => (peers, false)
      | Some peers' => listen_for_peers peers' t
      end
  end.

(** Python's [max(list)]: the first item that no later item exceeds
    ([None] is the [ValueError] on an empty list). *)
Fixpoint py_max_from (cur : string) (l : list string) : string :=
  match l with
  | [] => cur
  | x :: t => py_max_from (if String.ltb cur x then x else cur) t
  end.

Definition py_max (l : list string) : option string :=
  match l with [] => None | x :: t => Some (py_max_from x t) end.

(** [leader_election.elect_leader()]; [my_ip] is [my_ip()]. *)
Definition elect_leader (peers : dict scalar) (my_ip : string) : option string :=
  py_max (map fst peers ++ [my_ip]).

(** [socket.connect((ip, port))] accepts an [int] port ([bool] is an
    [int]); any other value raises. *)
Definition port_of (p : scalar) : option Z :=
  match p with SInt z => Some z | SBool b => Some (Z.b2z b) | _ => None end.

(** [peer_client.send_message(ip, port, msg)] as the [i]-th connection
    of an operation. *)
Definition send_message_at (net : Host.network) (i : nat) (ip : string) (port : scalar)
    (msg : envelope) (sf : StoreForward.sf_state envelope)
    : bool * StoreForward.sf_state envelope :=
  match port_of port with
  | Some p => Host.send_message (fun j => net (i + j)) ip p msg sf
  | None => (false, StoreForward.buffer_message ip msg sf)
  end.

(** The [for ip, port in targets: send_message(ip, port, msg)] loop. *)
Fixpoint send_all (net : Host.network) (i : nat) (msg : envelope)
    (targets : dict scalar) (sf : StoreForward.sf_state envelope)
    : StoreForward.sf_state envelope :=
  match targets with
  | [] => sf
  | (ip, port) :: t =>
      let '(_, sf') := send_message_at net i ip port msg sf in
      send_all net (S i) msg t sf'
  end.

(** The node's state: [discovery.peers], [message_router.pending_acks]
    and the store-and-forward module. *)
Record engine := {
  e_peers : dict scalar; e_pending : pending;
  e_sf : StoreForward.sf_state envelope }.

(** The JSON body of the HTTP response. *)
Inductive response := Delivered (b : bool) | StatusSent.

(** [API.do_POST] on a body [{"type": msg_type, "text": text}]; [rounds]
    are the ACKs handled by the server during each round of
    [wait_for_acks].  Returns the response and the state when the
    response is computed (before the ACKs of the wait). *)
Definition do_POST (e : engine) (msg_type text uuid : string) (now : QArith_base.Q)
    (net : Host.network) (rounds : list (list ack)) : response * engine :=
  let msg := create_message uuid now msg_type "UI" text in
  let targets := e_peers e in
  let pa := if String.eqb (type msg) "SOS"
            then register_ack (id msg) (map fst targets) (e_pending e)
            else e_pending e in
  let sf := send_all net 0 msg targets (e_sf e) in
  let e' := {| e_peers := e_peers e; e_pending := pa; e_sf := sf |} in
  if String.eqb (type msg) "SOS"
  then (Delivered (wait_for_acks (id msg) rounds pa), e')
  else (StatusSent, e').

End Engine.

(** * Proofs *)

(** ** Facts about the dict model *)
Module DictFacts.

Lemma get_setitem_same {V} k (v : V) d : get k (setitem k v d) = Some v.
Proof.
  induction d as [|[k' v'] t IH]; simpl.
  - now rewrite String.eqb_refl.
  - destruct (String.eqb k k') eqn:E; simpl.
    + now rewrite String.eqb_refl.
    + now rewrite E.
Qed.

Lemma get_setitem_other {V} k k2 (v : V) d :
  k2 <> k -> get k2 (setitem k v d) = get k2 d.
Proof.
  intros Hne. induction d as [|[k' v'] t IH]; simpl.
  - apply String.eqb_neq in Hne. now rewrite Hne.
  - destruct (String.eqb k k') eqn:E; simpl.
    + apply String.eqb_eq in E. subst k'.
      apply String.eqb_neq in Hne. now rewrite Hne.
    + destruct (String.eqb k2 k'); auto.
Qed.

End DictFacts.

(** ** C1: acknowledgement completion *)

(** C1 (code_bug). [register_ack("m", ["A", "B"])] followed by a single
    ACK for ["m"] from peer ["A"] makes [wait_for_acks("m")] report the
    message delivered at its first poll, whatever the later rounds hold:
    [handle_ack] pops the whole entry and never consults the awaited set,
    so peer ["B"] is never waited for. *)
Theorem wait_for_acks_ack_from_A_only :
  forall rest,
  MessageRouter.wait_for_acks "m"
    ([{| MessageRouter.ack_id := "m"; MessageRouter.ack_from := "A" |}] :: rest)
    (MessageRouter.register_ack "m" ["A"; "B"] []) = true.
Proof. intros rest. reflexivity. Qed.

(** ** C2: failed sends and the peer directory *)

(** C2 (code_bug). With the directory [{"p1": ("10.0.0.2", 9000)}] and a
    connection to that address that fails, [_send_to_peer("p1", handshake)]
    leaves the directory empty: the failed send evicts the peer. *)
Theorem send_to_peer_failure_evicts :
  forall net message,
  net 0 "10.0.0.2" 9000%Z = false ->
  Host.peers (fst (Host.send_to_peer
      {| Host.host_peer_id := "a1b2c3d4";
         Host.peers := [("p1", ("10.0.0.2", 9000%Z))] |} net "p1" message)) = [].
Proof.
  intros net message Hnet. unfold Host.send_to_peer. simpl.
  rewrite Hnet. reflexivity.
Qed.

(** Witness for [send_to_peer_failure_evicts]: an unreachable network. *)
Lemma send_to_peer_failure_evicts_witness :
  (fun (_ : nat) (_ : string) (_ : Z) => false) 0 "10.0.0.2" 9000%Z = false /\
  Host.peers (fst (Host.send_to_peer
      {| Host.host_peer_id := "a1b2c3d4";
         Host.peers := [("p1", ("10.0.0.2", 9000%Z))] |}
      (fun _ _ _ => false) "p1" [])) = [].
Proof.
  split; [reflexivity |].
  apply (send_to_peer_failure_evicts (fun _ _ _ => false) []). reflexivity.
Defined.

(** ** C3, C4: the store-and-forward buffer *)
Module StoreForwardFacts.
Import StoreForward DictFacts.

Lemma flush_loop_eq {msg} (f : nat -> msg -> bool) i l :
  flush_loop f i l =
  (l, map snd (filter (fun '(j, m) => negb (f j m)) (combine (seq i (length l)) l))).
Proof.
  revert i. induction l as [|m t IH]; intros i; simpl; [reflexivity |].
  rewrite IH. destruct (f i m); reflexivity.
Qed.

Lemma flush_buffer_eq {msg} ip (f : nat -> msg -> bool) s :
  let msgs := match get ip (buffer s) with Some q => q | None => [] end in
  flush_buffer ip f s =
  (msgs, save_buffer {| buffer := setitem ip (failed_of f msgs) (buffer s);
                        disk := disk s |}).
Proof.
  unfold flush_buffer, failed_of. simpl.
  rewrite flush_loop_eq. reflexivity.
Qed.

Lemma flush_loop_all_ok {msg} i (l : list msg) :
  snd (flush_loop (fun _ _ => true) i l) = [].
Proof.
  revert i. induction l as [|m t IH]; intros i; simpl; [reflexivity |].
  specialize (IH (S i)). destruct (flush_loop _ (S i) t). exact IH.
Qed.

End StoreForwardFacts.

(** C3. [flush_buffer(ip, port, send_func)] attempts every envelope queued
    for [ip], in enqueue order; afterwards the queue for [ip] holds exactly
    the envelopes whose attempt failed, in their original order, the other
    queues are untouched, and the file holds the new buffer. *)
Theorem flush_buffer_keeps_failed_in_order :
  forall (msg : Type) ip (send_func : nat -> msg -> bool) (s : StoreForward.sf_state msg),
  let msgs := match get ip (StoreForward.buffer s) with Some q => q | None => [] end in
  let '(attempted, s') := StoreForward.flush_buffer ip send_func s in
  attempted = msgs /\
  get ip (StoreForward.buffer s') = Some (StoreForward.failed_of send_func msgs) /\
  (forall k, k <> ip -> get k (StoreForward.buffer s') = get k (StoreForward.buffer s)) /\
  StoreForward.disk s' = Some (StoreForward.buffer s').
Proof.
  intros msg ip f s msgs.
  rewrite StoreForwardFacts.flush_buffer_eq. fold msgs.
  simpl. split; [reflexivity |]. split; [apply DictFacts.get_setitem_same |].
  split; [| reflexivity].
  intros k Hk. now apply DictFacts.get_setitem_other.
Qed.

(** C4. [buffer_message(P, m)] writes the file before returning; a restart
    that reloads the file gives back the same mapping, whose queue for [P]
    ends with [m]; a following flush of [P] in which every send succeeds
    leaves [P]'s queue empty. *)
Theorem buffer_message_restart_flush :
  forall (msg : Type) (P : string) (m : msg) (s : StoreForward.sf_state msg),
  let s1 := StoreForward.buffer_message P m s in
  let old := match get P (StoreForward.buffer s) with Some q => q | None => [] end in
  StoreForward.disk s1 = Some (StoreForward.buffer s1) /\
  StoreForward.buffer (StoreForward.restart s1) = StoreForward.buffer s1 /\
  get P (StoreForward.buffer (StoreForward.restart s1)) = Some (old ++ [m]) /\
  get P (StoreForward.buffer
           (snd (StoreForward.flush_buffer P (fun _ _ => true)
                   (StoreForward.restart s1)))) = Some [].
Proof.
  intros msg P m s s1 old.
  assert (Hb : StoreForward.buffer s1 =
               StoreForward.setdefault_append P m (StoreForward.buffer s)) by reflexivity.
  split; [reflexivity |]. split; [reflexivity |]. split.
  - change (StoreForward.buffer (StoreForward.restart s1)) with (StoreForward.buffer s1).
    rewrite Hb. unfold StoreForward.setdefault_append.
    apply DictFacts.get_setitem_same.
  - unfold StoreForward.flush_buffer.
    destruct (StoreForward.flush_loop _ 0 _) as [att rem] eqn:E.
    simpl. rewrite DictFacts.get_setitem_same.
    pose proof (StoreForwardFacts.flush_loop_all_ok (msg:=msg) 0
      (match get P (StoreForward.buffer (StoreForward.restart s1)) with
       | Some q => q | None => [] end)) as H.
    rewrite E in H. simpl in H. now subst rem.
Qed.

(** ** C5, C9, C10: broadcasting *)
Module HostFacts.
Import Host DictFacts.

Definition address_of (a : attempt) : string * (string * Z) :=
  (at_peer a, (at_ip a, at_port a)).

Lemma broadcast_loop_spec net i payload l :
  let '(n, tr) := broadcast_loop net i payload l in
  map address_of tr = l /\ n = length (filter at_ok tr) /\
  Forall (fun a => at_payload a = payload) tr.
Proof.
  revert i. induction l as [|[pid [ip port]] t IH]; intros i; simpl.
  - repeat split; constructor.
  - specialize (IH (S i)). destruct (broadcast_loop net (S i) payload t) as [n tr].
    destruct IH as (Hm & Hn & Hp).
    destruct (net i ip port); simpl; rewrite Hm;
      repeat split; auto.
Qed.

Lemma filter_length_split {A} (f : A -> bool) l :
  length (filter f l) + length (filter (fun x => negb (f x)) l) = length l.
Proof.
  induction l as [|x t IH]; simpl; [reflexivity |].
  destruct (f x); simpl; lia.
Qed.

Lemma nth_error_heap_set_same l o h :
  l < length h -> nth_error (heap_set l o h) l = Some o.
Proof.
  revert l. induction h as [|x t IH]; intros l Hl; simpl in *; [lia |].
  destruct l; simpl; [reflexivity |]. apply IH. lia.
Qed.

Lemma nth_error_heap_set_other l l' o h :
  l' <> l -> nth_error (heap_set l o h) l' = nth_error h l'.
Proof.
  revert l l'. induction h as [|x t IH]; intros l l' Hne; simpl.
  - destruct l, l'; reflexivity.
  - destruct l, l'; simpl; try reflexivity; try congruence.
    apply IH. congruence.
Qed.

Lemma broadcast_message_eq hst net loc h message :
  nth_error h loc = Some message ->
  broadcast_message hst net loc h =
  let message' := setitem "peer_id" (VScalar (SStr (host_peer_id hst))) message in
  let '(n, tr) := broadcast_loop net 0 message' (peers hst) in
  (n, tr, hst, heap_set loc message' h).
Proof.
  intros H. unfold broadcast_message. rewrite H. reflexivity.
Qed.

End HostFacts.

(** C5. [broadcast_message] tries each peer of the directory snapshot once,
    in order, and returns exactly the number of sends that succeeded (so
    successes plus failures make up the snapshot); the directory is left
    as it was. *)
Theorem broadcast_message_counts_successes :
  forall hst net loc h message,
  nth_error h loc = Some message ->
  let '(n, tr, hst', _) := Host.broadcast_message hst net loc h in
  map HostFacts.address_of tr = Host.peers hst /\
  n = length (filter Host.at_ok tr) /\
  n + length (filter (fun a => negb (Host.at_ok a)) tr) = length (Host.peers hst) /\
  hst' = hst.
Proof.
  intros hst net loc h message Hm.
  rewrite (HostFacts.broadcast_message_eq hst net loc h message Hm). simpl.
  pose proof (HostFacts.broadcast_loop_spec net 0
    (setitem "peer_id" (VScalar (SStr (Host.host_peer_id hst))) message)
    (Host.peers hst)) as Hs.
  destruct (Host.broadcast_loop _ _ _ _) as [n tr].
  destruct Hs as (Hm' & Hn & _).
  repeat split; auto.
  rewrite Hn, HostFacts.filter_length_split, <- Hm', length_map. reflexivity.
Qed.

(** Witness for [broadcast_message_counts_successes]: three peers, the
    second unreachable; two sends succeed. *)
Lemma broadcast_message_counts_successes_witness :
  let hst := {| Host.host_peer_id := "self0001";
                Host.peers := [("a", ("10.0.0.1", 9000%Z)); ("b", ("10.0.0.2", 9000%Z));
                               ("c", ("10.0.0.3", 9000%Z))] |} in
  let net := fun (_ : nat) ip (_ : Z) => negb (String.eqb ip "10.0.0.2") in
  let h := [[("type", VScalar (SStr "chat_message"))]] in
  nth_error h 0 = Some [("type", VScalar (SStr "chat_message"))] /\
  (let '(n, tr, hst', _) := Host.broadcast_message hst net 0 h in
   map HostFacts.address_of tr = Host.peers hst /\
   n = length (filter Host.at_ok tr) /\
   n + length (filter (fun a => negb (Host.at_ok a)) tr) = length (Host.peers hst) /\
   hst' = hst) /\
  (let '(n, _, _, _) := Host.broadcast_message hst net 0 h in n = 2).
Proof.
  intros hst net h. split; [reflexivity |]. split; [| reflexivity].
  apply (broadcast_message_counts_successes hst net 0 h [("type", VScalar (SStr "chat_message"))]). reflexivity.
Defined.

(** C10. [broadcast_message(message)] stores the host's own peer id under
    ['peer_id'] in the caller's dict, overwriting any earlier value and
    keeping every other key; the caller sees the change after the call,
    other objects are untouched, and every payload sent carries that id. *)
Theorem broadcast_message_sets_peer_id :
  forall hst net loc h message,
  nth_error h loc = Some message ->
  let '(_, tr, _, h') := Host.broadcast_message hst net loc h in
  exists message',
    nth_error h' loc = Some message' /\
    get "peer_id" message' = Some (VScalar (SStr (Host.host_peer_id hst))) /\
    (forall k, k <> "peer_id" -> get k message' = get k message) /\
    (forall l, l <> loc -> nth_error h' l = nth_error h l) /\
    Forall (fun a => Host.at_payload a = message') tr.
Proof.
  intros hst net loc h message Hm.
  rewrite (HostFacts.broadcast_message_eq hst net loc h message Hm). simpl.
  set (message' := setitem "peer_id" _ message).
  pose proof (HostFacts.broadcast_loop_spec net 0 message' (Host.peers hst)) as Hs.
  destruct (Host.broadcast_loop _ _ _ _) as [n tr].
  destruct Hs as (_ & _ & Hp).
  exists message'. repeat split.
  - apply HostFacts.nth_error_heap_set_same.
    apply nth_error_Some. congruence.
  - apply DictFacts.get_setitem_same.
  - intros k Hk. now apply DictFacts.get_setitem_other.
  - intros l Hl. now apply HostFacts.nth_error_heap_set_other.
  - exact Hp.
Qed.

(** Witness for [broadcast_message_sets_peer_id]: the caller had stored
    another id under ['peer_id']. *)
Lemma broadcast_message_sets_peer_id_witness :
  let hst := {| Host.host_peer_id := "self0001";
                Host.peers := [("a", ("10.0.0.1", 9000%Z))] |} in
  let h := [[("peer_id", VScalar (SStr "spoofed")); ("room", VScalar (SStr "relief"))]] in
  nth_error h 0 = Some [("peer_id", VScalar (SStr "spoofed")); ("room", VScalar (SStr "relief"))] /\
  (let '(_, tr, _, h') := Host.broadcast_message hst (fun _ _ _ => true) 0 h in
   exists message',
    nth_error h' 0 = Some message' /\
    get "peer_id" message' = Some (VScalar (SStr (Host.host_peer_id hst))) /\
    (forall k, k <> "peer_id" ->
       get k message' = get k [("peer_id", VScalar (SStr "spoofed")); ("room", VScalar (SStr "relief"))]) /\
    (forall l, l <> 0 -> nth_error h' l = nth_error h l) /\
    Forall (fun a => Host.at_payload a = message') tr).
Proof.
  intros hst h. split; [reflexivity |].
  apply (broadcast_message_sets_peer_id hst (fun _ _ _ => true) 0 h
    [("peer_id", VScalar (SStr "spoofed")); ("room", VScalar (SStr "relief"))]). reflexivity.
Defined.

(** C9. [publish(text)] appends the new [ChatMessage] to the local log
    whatever the broadcast does, broadcasts it to every peer of the
    directory, and returns [True] exactly when at least one send succeeded;
    with no success it returns [False] and the message stays in the log. *)
Theorem publish_appends_and_reports :
  forall r hst net h text now,
  let c := {| ChatRoom.Message := SStr text; ChatRoom.SenderID := SStr (ChatRoom.room_peer_id r);
              ChatRoom.SenderNick := SStr (ChatRoom.nickname r);
              ChatRoom.Timestamp := SStr now |} in
  let '(ok, r', _, _, tr) := ChatRoom.publish r hst net h text now in
  ChatRoom.messages r' = ChatRoom.messages r ++ [c] /\
  (ok = true <-> 0 < length (filter Host.at_ok tr)) /\
  (ok = false -> In c (ChatRoom.messages r')) /\
  map HostFacts.address_of tr = Host.peers hst /\
  Forall (fun a => get "data" (Host.at_payload a) = Some (VDict (ChatRoom.asdict c))) tr.
Proof.
  intros r hst net h text now c.
  unfold ChatRoom.publish. fold c.
  set (bd := [("type", VScalar (SStr "chat_message"));
              ("room", VScalar (SStr (ChatRoom.room_name r)));
              ("data", VDict (ChatRoom.asdict c))]).
  assert (Hn : nth_error (h ++ [bd]) (length h) = Some bd).
  { rewrite nth_error_app2 by lia. rewrite Nat.sub_diag. reflexivity. }
  rewrite (HostFacts.broadcast_message_eq hst net (length h) (h ++ [bd]) bd Hn).
  cbv zeta.
  set (message' := setitem "peer_id" _ bd).
  pose proof (HostFacts.broadcast_loop_spec net 0 message' (Host.peers hst)) as Hs.
  destruct (Host.broadcast_loop _ _ _ _) as [n tr].
  destruct Hs as (Hm & Hcount & Hp). simpl.
  repeat split.
  - rewrite Nat.ltb_lt. lia.
  - rewrite <- Hcount. apply Nat.ltb_lt.
  - intros _. apply in_or_app. right. now left.
  - exact Hm.
  - eapply Forall_impl; [| exact Hp]. intros a Ha. rewrite Ha.
    unfold message'. rewrite DictFacts.get_setitem_other by discriminate.
    reflexivity.
Qed.

(** ** C6, C7: the room's inbound handler *)
Module ChatFacts.
Import ChatRoom.

(** Python's [==] on scalars is equality after reading [bool] as [int]. *)
Definition norm (a : scalar) : scalar :=
  match a with SBool b => SInt (Z.b2z b) | _ => a end.

Lemma py_eq_spec a b : py_eq a b = true <-> norm a = norm b.
Proof.
  destruct a as [|x|x|x], b as [|y|y|y]; simpl;
    rewrite ?Z.eqb_eq, ?String.eqb_eq; split; intro H;
    try discriminate; try congruence; try reflexivity.
  - apply Bool.eqb_prop in H. now subst.
  - inversion H. destruct x, y; simpl in *; congruence.
Qed.

Lemma py_eq_refl a : py_eq a a = true.
Proof. now apply py_eq_spec. Qed.

Lemma py_eq_sym a b : py_eq a b = py_eq b a.
Proof.
  destruct (py_eq b a) eqn:E.
  - apply py_eq_spec in E. apply py_eq_spec. congruence.
  - destruct (py_eq a b) eqn:F; [| reflexivity].
    apply py_eq_spec in F. rewrite <- E. symmetry. apply py_eq_spec. congruence.
Qed.

Lemma py_eq_trans a b c : py_eq a b = true -> py_eq b c = true -> py_eq a c = true.
Proof. rewrite !py_eq_spec. congruence. Qed.

Definition key (c : ChatMessage) : scalar * scalar * scalar :=
  (norm (SenderID c), norm (Message c), norm (Timestamp c)).

Lemma same_tuple_spec c m : same_tuple c m = true <-> key m = key c.
Proof.
  unfold same_tuple, key. rewrite !Bool.andb_true_iff, !py_eq_spec.
  split; [intros [[H1 H2] H3]; congruence |].
  intros H. inversion H. auto.
Qed.

Lemma remote_sender c pid :
  py_eq (SenderID c) (SStr pid) = false <-> norm (SenderID c) <> SStr pid.
Proof.
  split; intros H.
  - intros E. assert (py_eq (SenderID c) (SStr pid) = true) by (apply py_eq_spec; exact E).
    congruence.
  - destruct (py_eq (SenderID c) (SStr pid)) eqn:E; [| reflexivity].
    apply py_eq_spec in E. contradiction.
Qed.

(** A handled envelope either leaves the room as it was or appends one
    new, remote, not yet logged message. *)
Lemma handle_cases r now md :
  handle_incoming_message r now md = r \/
  exists c, mk_chat_message (inbound_data md) now = Some c /\
    py_eq (SenderID c) (SStr (room_peer_id r)) = false /\
    existsb (same_tuple c) (messages r) = false /\
    handle_incoming_message r now md = with_messages r (messages r ++ [c]).
Proof.
  unfold handle_incoming_message.
  destruct (negb (get_is_str "type" md "chat_message")); [now left |].
  destruct (negb (get_is_str "room" md (room_name r))); [now left |].
  destruct (mk_chat_message (inbound_data md) now) as [c|]; [| now left].
  destruct (py_eq (SenderID c) (SStr (room_peer_id r))) eqn:E1; [now left |].
  destruct (existsb (same_tuple c) (messages r)) eqn:E2; [now left |].
  right. exists c. auto.
Qed.

(** At most one logged entry per remote [(sender_id, text, timestamp)]. *)
Definition unique_remote (r : room) : Prop :=
  forall c, py_eq (SenderID c) (SStr (room_peer_id r)) = false ->
  length (filter (same_tuple c) (messages r)) <= 1.

Lemma publish_room r hst net h m now :
  let '(_, r', _, _, _) := publish r hst net h m now in
  r' = with_messages r (messages r ++
         [{| Message := SStr m; SenderID := SStr (room_peer_id r);
             SenderNick := SStr (nickname r); Timestamp := SStr now |}]).
Proof.
  unfold publish.
  destruct (Host.broadcast_message _ _ _ _) as [[[? ?] ?] ?]. reflexivity.
Qed.

Lemma room_step_ids hst h r op :
  room_name (room_step hst h r op) = room_name r /\
  room_peer_id (room_step hst h r op) = room_peer_id r.
Proof.
  destruct op as [m now net | now md |]; simpl.
  - pose proof (publish_room r hst net h m now) as Hp.
    destruct (publish r hst net h m now) as [[[[? r'] ?] ?] ?]. subst r'. auto.
  - destruct (handle_cases r now md) as [-> | (c & _ & _ & _ & ->)]; auto.
  - auto.
Qed.

Lemma filter_none_matching c l :
  existsb (same_tuple c) l = false ->
  forall c', same_tuple c' c = true -> filter (same_tuple c') l = [].
Proof.
  intros Hex c' Hc'. apply same_tuple_spec in Hc'.
  induction l as [|m t IH]; simpl in *; [reflexivity |].
  apply Bool.orb_false_iff in Hex. destruct Hex as [Hm Ht].
  destruct (same_tuple c' m) eqn:E; [| now apply IH].
  apply same_tuple_spec in E.
  assert (same_tuple c m = true) by (apply same_tuple_spec; congruence).
  congruence.
Qed.

Lemma handle_preserves_unique r now md :
  unique_remote r -> unique_remote (handle_incoming_message r now md).
Proof.
  intros Hu.
  destruct (handle_cases r now md) as [-> | (c & _ & Hrem & Hex & ->)]; [exact Hu |].
  intros c' Hc'. simpl in *. rewrite filter_app, length_app. simpl.
  destruct (same_tuple c' c) eqn:E; simpl.
  - rewrite (filter_none_matching c (messages r) Hex c' E). simpl. lia.
  - specialize (Hu c' Hc'). lia.
Qed.

Lemma room_step_preserves_unique hst h r op :
  unique_remote r -> unique_remote (room_step hst h r op).
Proof.
  intros Hu. destruct op as [m now net | now md |]; simpl.
  - pose proof (publish_room r hst net h m now) as Hp.
    destruct (publish r hst net h m now) as [[[[? r'] ?] ?] ?]. subst r'.
    intros c' Hc'. simpl in *. rewrite filter_app, length_app. simpl.
    destruct (same_tuple c' _) eqn:E; simpl.
    + apply same_tuple_spec in E. unfold key in E. simpl in E.
      apply remote_sender in Hc'. inversion E. congruence.
    + specialize (Hu c' Hc'). lia.
  - now apply handle_preserves_unique.
  - intros c' _. simpl. lia.
Qed.

Lemma run_room_invariant hst h ops r :
  unique_remote r ->
  unique_remote (run_room hst h r ops) /\
  room_name (run_room hst h r ops) = room_name r /\
  room_peer_id (run_room hst h r ops) = room_peer_id r.
Proof.
  unfold run_room. revert r. induction ops as [|op t IH]; intros r Hu; simpl; auto.
  destruct (IH (room_step hst h r op)) as (H1 & H2 & H3).
  - now apply room_step_preserves_unique.
  - destruct (room_step_ids hst h r op) as [E1 E2].
    rewrite H2, H3, E1, E2. auto.
Qed.

Lemma handle_all_suffix r inbound :
  exists suffix, messages (handle_all r inbound) = messages r ++ suffix /\
  Forall (fun c => py_eq (SenderID c) (SStr (room_peer_id r)) = false) suffix /\
  room_peer_id (handle_all r inbound) = room_peer_id r.
Proof.
  revert r. induction inbound as [|[now md] t IH]; intros r; simpl.
  - exists []. rewrite app_nil_r. auto.
  - destruct (handle_cases r now md) as [E | (c & _ & Hrem & _ & E)]; rewrite E.
    + apply IH.
    + destruct (IH (with_messages r (messages r ++ [c]))) as (s & Hs & Hf & Hp).
      simpl in *. exists (c :: s). rewrite Hs, <- app_assoc. auto.
Qed.

End ChatFacts.

Module InboundFacts.
Import ChatRoom ChatFacts.

Lemma handle_accept r now md c :
  get_is_str "type" md "chat_message" = true ->
  get_is_str "room" md (room_name r) = true ->
  mk_chat_message (inbound_data md) now = Some c ->
  py_eq (SenderID c) (SStr (room_peer_id r)) = false ->
  handle_incoming_message r now md =
  if existsb (same_tuple c) (messages r) then r
  else with_messages r (messages r ++ [c]).
Proof.
  intros Ht Hr Hc Hs. unfold handle_incoming_message.
  rewrite Ht, Hr, Hc, Hs. reflexivity.
Qed.

Lemma same_tuple_same_key c c2 m :
  key c = key c2 -> same_tuple c m = same_tuple c2 m.
Proof.
  intros Hk. destruct (same_tuple c2 m) eqn:E.
  - apply same_tuple_spec. apply same_tuple_spec in E. congruence.
  - destruct (same_tuple c m) eqn:F; [| reflexivity].
    apply same_tuple_spec in F. rewrite <- E. symmetry.
    apply same_tuple_spec. congruence.
Qed.

Lemma existsb_filter_length c l :
  existsb (same_tuple c) l = true -> 1 <= length (filter (same_tuple c) l).
Proof.
  induction l as [|m t IH]; simpl; [discriminate |].
  destruct (same_tuple c m); simpl; [lia |]. exact IH.
Qed.

Lemma existsb_pointwise {A} (f g : A -> bool) l :
  (forall x, f x = g x) -> existsb f l = existsb g l.
Proof.
  intros H. induction l as [|x t IH]; simpl; [reflexivity |].
  now rewrite H, IH.
Qed.

End InboundFacts.

(** C6. In any state a room reaches from [join_chat_room] through
    [publish], inbound envelopes and [clear_messages], delivering the same
    chat message (same [(SenderID, Message, Timestamp)] under Python [==],
    sender other than the local peer) twice leaves exactly one entry with
    that tuple in the log, and the second delivery changes nothing. *)
Theorem duplicate_delivery_single_entry :
  forall hst h ops name nick pid now1 now2 md c1 c2,
  let r := ChatRoom.run_room hst h (ChatRoom.new_room name nick pid) ops in
  get_is_str "type" md "chat_message" = true ->
  get_is_str "room" md name = true ->
  ChatRoom.mk_chat_message (ChatRoom.inbound_data md) now1 = Some c1 ->
  ChatRoom.mk_chat_message (ChatRoom.inbound_data md) now2 = Some c2 ->
  ChatRoom.same_tuple c1 c2 = true ->
  py_eq (ChatRoom.SenderID c1) (SStr pid) = false ->
  let r1 := ChatRoom.handle_incoming_message r now1 md in
  let r2 := ChatRoom.handle_incoming_message r1 now2 md in
  length (filter (ChatRoom.same_tuple c1) (ChatRoom.messages r2)) = 1 /\ r2 = r1.
Proof.
  intros hst h ops name nick pid now1 now2 md c1 c2 r Ht Hr Hc1 Hc2 H12 Hs r1 r2.
  destruct (ChatFacts.run_room_invariant hst h ops (ChatRoom.new_room name nick pid))
    as (Hu & Hn & Hp).
  { intros c _. simpl. lia. }
  fold r in Hu, Hn, Hp. simpl in Hn, Hp.
  apply ChatFacts.same_tuple_spec in H12.
  assert (Hs2 : py_eq (ChatRoom.SenderID c2) (SStr pid) = false).
  { apply ChatFacts.remote_sender. apply ChatFacts.remote_sender in Hs.
    unfold ChatFacts.key in H12. inversion H12. congruence. }
  rewrite <- Hn in Hr. rewrite <- Hp in Hs, Hs2.
  assert (E1 : r1 = if existsb (ChatRoom.same_tuple c1) (ChatRoom.messages r) then r
                    else ChatRoom.with_messages r (ChatRoom.messages r ++ [c1]))
    by (apply InboundFacts.handle_accept; assumption).
  assert (Hn1 : ChatRoom.room_name r1 = ChatRoom.room_name r)
    by (rewrite E1; destruct (existsb _ _); reflexivity).
  assert (Hp1 : ChatRoom.room_peer_id r1 = ChatRoom.room_peer_id r)
    by (rewrite E1; destruct (existsb _ _); reflexivity).
  rewrite <- Hn1 in Hr. rewrite <- Hp1 in Hs2.
  assert (E2 : r2 = if existsb (ChatRoom.same_tuple c2) (ChatRoom.messages r1) then r1
                    else ChatRoom.with_messages r1 (ChatRoom.messages r1 ++ [c2]))
    by (apply InboundFacts.handle_accept; assumption).
  assert (Hex1 : existsb (ChatRoom.same_tuple c1) (ChatRoom.messages r1) = true).
  { rewrite E1. destruct (existsb (ChatRoom.same_tuple c1) (ChatRoom.messages r)) eqn:X;
      [exact X |].
    simpl. rewrite existsb_app. simpl.
    replace (ChatRoom.same_tuple c1 c1) with true
      by (symmetry; apply ChatFacts.same_tuple_spec; reflexivity).
    now rewrite Bool.orb_true_r. }
  assert (Hex2 : existsb (ChatRoom.same_tuple c2) (ChatRoom.messages r1) = true).
  { rewrite <- Hex1. apply InboundFacts.existsb_pointwise. intros m.
    symmetry.
    apply InboundFacts.same_tuple_same_key. symmetry. exact H12. }
  rewrite Hex2 in E2. split; [| exact E2].
  rewrite E2. rewrite E1.
  destruct (existsb (ChatRoom.same_tuple c1) (ChatRoom.messages r)) eqn:X.
  - pose proof (InboundFacts.existsb_filter_length _ _ X).
    rewrite Hp in Hs. specialize (Hu c1). rewrite Hp in Hu. specialize (Hu Hs). lia.
  - simpl. rewrite filter_app, length_app.
    rewrite (ChatFacts.filter_none_matching c1 _ X c1)
      by (apply ChatFacts.same_tuple_spec; reflexivity).
    simpl. replace (ChatRoom.same_tuple c1 c1) with true
      by (symmetry; apply ChatFacts.same_tuple_spec; reflexivity).
    reflexivity.
Qed.

(** Witness for [duplicate_delivery_single_entry]: a room that published
    once, then receives the same envelope from peer ["b2"] twice. *)
Lemma duplicate_delivery_single_entry_witness :
  let md := [("type", VScalar (SStr "chat_message")); ("room", VScalar (SStr "relief"));
             ("data", VDict [("Message", SStr "help"); ("SenderID", SStr "b2");
                             ("SenderNick", SStr "bob");
                             ("Timestamp", SStr "2024-01-01T00:00:00")]);
             ("peer_id", VScalar (SStr "b2"))] in
  let c := {| ChatRoom.Message := SStr "help"; ChatRoom.SenderID := SStr "b2";
              ChatRoom.SenderNick := SStr "bob";
              ChatRoom.Timestamp := SStr "2024-01-01T00:00:00" |} in
  let ops := [ChatRoom.OpPublish "hi" "2024-01-01T00:00:01" (fun _ _ _ => false)] in
  let hst := {| Host.host_peer_id := "a1"; Host.peers := [] |} in
  let r := ChatRoom.run_room hst [] (ChatRoom.new_room "relief" "alice" "a1") ops in
  let r1 := ChatRoom.handle_incoming_message r "t1" md in
  let r2 := ChatRoom.handle_incoming_message r1 "t2" md in
  length (filter (ChatRoom.same_tuple c) (ChatRoom.messages r2)) = 1 /\ r2 = r1.
Proof.
  intros md c ops hst r r1 r2.
  apply (duplicate_delivery_single_entry hst [] ops "relief" "alice" "a1" "t1" "t2" md c c);
    reflexivity.
Defined.

(** C7. Whatever inbound envelopes a room handles, every entry they add
    to the log has a [SenderID] other than the local peer id, and an
    envelope whose chat message carries the local peer id as [SenderID]
    leaves the room exactly as it was. *)
Theorem self_echo_never_logged :
  forall r inbound,
  (exists suffix,
     ChatRoom.messages (ChatRoom.handle_all r inbound) = ChatRoom.messages r ++ suffix /\
     Forall (fun c => py_eq (ChatRoom.SenderID c) (SStr (ChatRoom.room_peer_id r)) = false)
       suffix) /\
  (forall now md c,
     ChatRoom.mk_chat_message (ChatRoom.inbound_data md) now = Some c ->
     py_eq (ChatRoom.SenderID c) (SStr (ChatRoom.room_peer_id r)) = true ->
     ChatRoom.handle_incoming_message r now md = r).
Proof.
  intros r inbound. split.
  - destruct (ChatFacts.handle_all_suffix r inbound) as (s & Hs & Hf & _).
    exists s. auto.
  - intros now md c Hc Hs.
    destruct (ChatFacts.handle_cases r now md) as [E | (c' & Hc' & Hs' & _ & _)];
      [exact E |].
    rewrite Hc in Hc'. inversion Hc'. subst c'. congruence.
Qed.

(** ** C8: the discovery listener *)
Module DiscoveryFacts.
Import Discovery.

Definition id_of (x : scalar * string * option scalar) : scalar := fst (fst x).

(** The datagrams the listener drops before looking at [discovered_peers]. *)
Definition filtered_out (d : listener) (dg : datagram) : bool :=
  match dg_body dg with
  | None => true
  | Some m => get_eq_str "peer_id" m (disc_peer_id d)
              || negb (get_eq_str "rendezvous" m (rendezvous d))
  end.

Definition inv (pid rdv : string) (d : listener) : Prop :=
  disc_peer_id d = pid /\ rendezvous d = rdv /\
  discovered_peers d = rev (map id_of (found d)) /\
  ForallOrdPairs (fun a b => py_eq (id_of a) (id_of b) = false) (found d) /\
  Forall (fun x => truthy (id_of x) = true /\ py_eq (id_of x) (SStr pid) = false) (found d).

Lemma ForallOrdPairs_snoc {A} (R : A -> A -> Prop) l x :
  ForallOrdPairs R l -> Forall (fun y => R y x) l -> ForallOrdPairs R (l ++ [x]).
Proof.
  induction l as [|y t IH]; intros Hp Hf; simpl.
  - repeat constructor.
  - inversion Hp; subst. inversion Hf; subst. constructor.
    + apply Forall_app. split; [assumption | now repeat constructor].
    + now apply IH.
Qed.

Lemma in_set_rev_false p l :
  in_set p (rev l) = false -> forall y, In y l -> py_eq p y = false.
Proof.
  intros H y Hy. destruct (py_eq p y) eqn:E; [| reflexivity].
  exfalso. assert (existsb (py_eq p) (rev l) = true) as X.
  { apply existsb_exists. exists y. split; [apply in_rev; now rewrite rev_involutive | exact E]. }
  unfold in_set in H. congruence.
Qed.

Lemma listen_step_cases d dg :
  listen_step d dg = d \/
  exists m p, dg_body dg = Some m /\ get "peer_id" m = Some p /\
    py_eq p (SStr (disc_peer_id d)) = false /\
    get_eq_str "rendezvous" m (rendezvous d) = true /\
    truthy p = true /\ in_set p (discovered_peers d) = false /\
    listen_step d dg =
      {| disc_peer_id := disc_peer_id d; rendezvous := rendezvous d;
         discovered_peers := p :: discovered_peers d;
         found := found d ++ [(p, dg_ip dg, get "p2p_port" m)] |}.
Proof.
  unfold listen_step. destruct (dg_body dg) as [m|]; [| now left].
  destruct (get_eq_str "peer_id" m (disc_peer_id d)) eqn:E1; [now left |].
  destruct (get_eq_str "rendezvous" m (rendezvous d)) eqn:E2; simpl; [| now left].
  destruct (get "peer_id" m) as [p|] eqn:E3; [| now left].
  destruct (truthy p) eqn:E4; simpl; [| now left].
  destruct (in_set p (discovered_peers d)) eqn:E5; simpl; [now left |].
  right. exists m, p. unfold get_eq_str in E1. rewrite E3 in E1. auto 10.
Qed.

Lemma listen_step_inv pid rdv d dg : inv pid rdv d -> inv pid rdv (listen_step d dg).
Proof.
  intros Hi. destruct (listen_step_cases d dg) as [-> | (m & p & _ & _ & Hs & _ & Ht & Hn & ->)];
    [exact Hi |].
  destruct Hi as (Hp & Hr & Hd & Ho & Hf). unfold inv. simpl.
  rewrite Hp in Hs.
  repeat split; auto.
  - rewrite map_app, rev_app_distr, Hd. reflexivity.
  - apply ForallOrdPairs_snoc; [exact Ho |].
    rewrite Hd in Hn. apply Forall_forall. intros y Hy. unfold id_of at 2. simpl.
    rewrite ChatFacts.py_eq_sym. apply (in_set_rev_false p (map id_of (found d)) Hn).
    now apply in_map.
  - apply Forall_app. split; [exact Hf |]. repeat constructor; assumption.
Qed.

Lemma listen_inv pid rdv dgs d : inv pid rdv d -> inv pid rdv (listen d dgs).
Proof.
  unfold listen. revert d. induction dgs as [|dg t IH]; intros d Hi; simpl; [exact Hi |].
  apply IH. now apply listen_step_inv.
Qed.

End DiscoveryFacts.

(** C8, counterexample. A datagram announcing the unseen peer id [""] for
    the local rendezvous is dropped by the [if peer_id and ...] test: the
    peer is not recorded and [on_peer_found] is not called. *)
Lemma discovery_empty_peer_id_not_registered :
  let d := Discovery.start "a1b2c3d4" "relief" in
  let dg := {| Discovery.dg_ip := "192.168.1.20";
               Discovery.dg_body := Some [("type", SStr "peer_announcement");
                                          ("peer_id", SStr ""); ("p2p_port", SInt 9001);
                                          ("rendezvous", SStr "relief")] |} in
  Discovery.in_set (SStr "") (Discovery.discovered_peers d) = false /\
  Discovery.listen_step d dg = d /\
  Discovery.found (Discovery.listen_step d dg) = [].
Proof. repeat split. Qed.

(** C8, amended. For every run of the listener from [init_mdns]: a
    datagram that is not a JSON object, names the local peer id or another
    rendezvous is dropped; one whose [peer_id] is present, truthy and unseen
    is recorded and [on_peer_found(peer_id, sender_ip, p2p_port)] is called
    once; one whose [peer_id] is already known changes nothing; over the
    whole run the callback is called at most once per peer id (under
    Python [==]), never for the local id or a falsy id. *)
Theorem discovery_callback_once_per_peer :
  forall pid rdv dgs,
  let d := Discovery.listen (Discovery.start pid rdv) dgs in
  ForallOrdPairs (fun a b => py_eq (DiscoveryFacts.id_of a) (DiscoveryFacts.id_of b) = false)
    (Discovery.found d) /\
  Forall (fun x => truthy (DiscoveryFacts.id_of x) = true /\
                   py_eq (DiscoveryFacts.id_of x) (SStr pid) = false) (Discovery.found d) /\
  (forall dg, DiscoveryFacts.filtered_out d dg = true -> Discovery.listen_step d dg = d) /\
  (forall dg m p, Discovery.dg_body dg = Some m -> get "peer_id" m = Some p ->
     Discovery.in_set p (Discovery.discovered_peers d) = true ->
     Discovery.listen_step d dg = d) /\
  (forall dg m p, Discovery.dg_body dg = Some m -> get "peer_id" m = Some p ->
     DiscoveryFacts.filtered_out d dg = false -> truthy p = true ->
     Discovery.in_set p (Discovery.discovered_peers d) = false ->
     Discovery.found (Discovery.listen_step d dg) =
       Discovery.found d ++ [(p, Discovery.dg_ip dg, get "p2p_port" m)]).
Proof.
  intros pid rdv dgs d.
  assert (Hi : DiscoveryFacts.inv pid rdv d).
  { apply DiscoveryFacts.listen_inv. unfold DiscoveryFacts.inv. simpl.
    repeat split; constructor. }
  destruct Hi as (Hp & Hr & Hd & Ho & Hf).
  split; [exact Ho |]. split; [exact Hf |]. split; [| split].
  - intros dg Hout.
    destruct (DiscoveryFacts.listen_step_cases d dg)
      as [E | (m & p & Hb & Hg & Hs & Hrd & _ & _ & _)]; [exact E |].
    unfold DiscoveryFacts.filtered_out, Discovery.get_eq_str in Hout.
    rewrite Hb, Hg, Hs in Hout. unfold Discovery.get_eq_str in Hrd. rewrite Hrd in Hout.
    discriminate.
  - intros dg m p Hb Hg Hin.
    destruct (DiscoveryFacts.listen_step_cases d dg)
      as [E | (m' & p' & Hb' & Hg' & _ & _ & _ & Hn & _)]; [exact E |].
    rewrite Hb in Hb'. inversion Hb'. subst m'. rewrite Hg in Hg'. inversion Hg'.
    subst p'. congruence.
  - intros dg m p Hb Hg Hout Ht Hn.
    unfold Discovery.listen_step. rewrite Hb.
    unfold DiscoveryFacts.filtered_out in Hout. rewrite Hb in Hout.
    apply Bool.orb_false_iff in Hout. destruct Hout as [H1 H2].
    rewrite H1. rewrite H2. simpl. rewrite Hg, Ht, Hn. reflexivity.
Qed.

(** * Further properties of the code *)

(** ** Dicts with distinct keys *)
Module KeyFacts.

Lemma in_keys_setitem {V} x k (v : V) d :
  In x (map fst (setitem k v d)) -> x = k \/ In x (map fst d).
Proof.
  induction d as [|[k' v'] t IH]; simpl; intros H.
  - destruct H as [H|[]]. now left.
  - destruct (String.eqb k k') eqn:E; simpl in H.
    + apply String.eqb_eq in E. subst. destruct H; auto.
    + destruct H as [H|H]; auto. destruct (IH H); auto.
Qed.

Lemma setitem_nodup {V} k (v : V) d :
  NoDup (map fst d) -> NoDup (map fst (setitem k v d)).
Proof.
  induction d as [|[k' v'] t IH]; simpl; intros Hn.
  - repeat constructor. intros [].
  - inversion Hn; subst. destruct (String.eqb k k') eqn:E; simpl.
    + apply String.eqb_eq in E. subst. now constructor.
    + constructor; [| now apply IH].
      intros Hin. destruct (in_keys_setitem _ _ _ _ Hin) as [->|Hin'].
      * rewrite String.eqb_refl in E. discriminate.
      * contradiction.
Qed.

Lemma in_keys_pop {V} x k (d : dict V) : In x (map fst (pop k d)) -> In x (map fst d).
Proof.
  induction d as [|[k' v'] t IH]; simpl; [auto |].
  destruct (String.eqb k k'); simpl; intros H; [now right |].
  destruct H; auto.
Qed.

Lemma pop_nodup {V} k (d : dict V) : NoDup (map fst d) -> NoDup (map fst (pop k d)).
Proof.
  induction d as [|[k' v'] t IH]; simpl; intros Hn; [constructor |].
  inversion Hn; subst. destruct (String.eqb k k'); [assumption |].
  simpl. constructor; [| now apply IH].
  intros Hin. apply in_keys_pop in Hin. contradiction.
Qed.

Lemma get_in_keys {V} k (d : dict V) : get k d = None <-> ~ In k (map fst d).
Proof.
  induction d as [|[k' v'] t IH]; simpl; [tauto |].
  destruct (String.eqb k k') eqn:E.
  - apply String.eqb_eq in E. subst. split; [discriminate | tauto].
  - apply String.eqb_neq in E. rewrite IH. intuition.
Qed.

Lemma get_pop_same {V} k (d : dict V) : NoDup (map fst d) -> get k (pop k d) = None.
Proof.
  induction d as [|[k' v'] t IH]; simpl; intros Hn; [reflexivity |].
  inversion Hn; subst. destruct (String.eqb k k') eqn:E.
  - apply String.eqb_eq in E. subst. now apply get_in_keys.
  - simpl. rewrite E. now apply IH.
Qed.

Lemma get_pop_other {V} k k2 (d : dict V) : k2 <> k -> get k2 (pop k d) = get k2 d.
Proof.
  intros Hne. induction d as [|[k' v'] t IH]; simpl; [reflexivity |].
  destruct (String.eqb k k') eqn:E; simpl.
  - apply String.eqb_eq in E. subst. apply String.eqb_neq in Hne. now rewrite Hne.
  - now rewrite IH.
Qed.

Lemma get_none_pop {V} k j (d : dict V) : get k d = None -> get k (pop j d) = None.
Proof.
  induction d as [|[k' v'] t IH]; simpl; [auto |].
  destruct (String.eqb k k') eqn:E; [discriminate |].
  intros H. destruct (String.eqb j k'); simpl; [exact H |]. rewrite E. auto.
Qed.

Lemma pop_absent {V} k (d : dict V) : get k d = None -> pop k d = d.
Proof.
  induction d as [|[k' v'] t IH]; simpl; [auto |].
  destruct (String.eqb k k'); [discriminate |]. intros H. now rewrite IH.
Qed.

End KeyFacts.

(** ** [message_router]: pending acknowledgements *)
Module RouterFacts.
Import MessageRouter KeyFacts.

Lemma on_acks_app l1 l2 pa : on_acks (l1 ++ l2) pa = on_acks l2 (on_acks l1 pa).
Proof. unfold on_acks. apply fold_left_app. Qed.

Lemma on_acks_absent msg l pa : get msg pa = None -> get msg (on_acks l pa) = None.
Proof.
  revert pa. induction l as [|a t IH]; intros pa H; simpl; [exact H |].
  apply IH. unfold on_ack, handle_ack. now apply get_none_pop.
Qed.

Lemma on_acks_nodup l pa : NoDup (map fst pa) -> NoDup (map fst (on_acks l pa)).
Proof.
  revert pa. induction l as [|a t IH]; intros pa H; simpl; [exact H |].
  apply IH. now apply pop_nodup.
Qed.

Lemma on_acks_get msg l pa :
  NoDup (map fst pa) ->
  get msg (on_acks l pa) =
  if existsb (fun a => String.eqb (ack_id a) msg) l then None else get msg pa.
Proof.
  revert pa. induction l as [|a t IH]; intros pa Hn; [reflexivity |].
  change (on_acks (a :: t) pa) with (on_acks t (on_ack a pa)). simpl existsb.
  unfold on_ack, handle_ack. rewrite (IH _ (pop_nodup _ _ Hn)).
  destruct (String.eqb (ack_id a) msg) eqn:E; simpl.
  - apply String.eqb_eq in E. subst.
    destruct (existsb _ t); [reflexivity |]. now apply get_pop_same.
  - apply String.eqb_neq in E. rewrite get_pop_other by congruence. reflexivity.
Qed.

Lemma mem_get {V} k (d : dict V) : mem k d = false <-> get k d = None.
Proof. unfold mem. destruct (get k d); split; congruence. Qed.

End RouterFacts.

Module WaitFacts.

Lemma outcome_at_end :
  forall msg_id rounds pa,
  rounds <> [] ->
  MessageRouter.wait_for_acks msg_id rounds pa =
  negb (mem msg_id (MessageRouter.on_acks (concat rounds) pa)).
Proof.
  intros msg_id rounds. induction rounds as [|r rs IH]; intros pa Hne; [congruence |].
  simpl. rewrite RouterFacts.on_acks_app.
  destruct (mem msg_id (MessageRouter.on_acks r pa)) eqn:E; simpl.
  - destruct rs as [|r' rs'].
    + simpl. rewrite E. reflexivity.
    + apply IH. discriminate.
  - apply RouterFacts.mem_get in E.
    assert (mem msg_id (MessageRouter.on_acks (concat rs) (MessageRouter.on_acks r pa)) = false)
      as ->; [| reflexivity].
    apply RouterFacts.mem_get. now apply RouterFacts.on_acks_absent.
Qed.

Lemma any_ack :
  forall msg_id rounds pa,
  NoDup (map fst pa) -> mem msg_id pa = true -> rounds <> [] ->
  MessageRouter.wait_for_acks msg_id rounds pa =
  existsb (fun a => String.eqb (MessageRouter.ack_id a) msg_id) (concat rounds).
Proof.
  intros msg_id rounds pa Hn Hm Hne.
  rewrite (outcome_at_end msg_id rounds pa Hne).
  unfold mem. rewrite (RouterFacts.on_acks_get msg_id _ pa Hn).
  unfold mem in Hm.
  destruct (existsb _ _); [reflexivity |].
  destruct (get msg_id pa); [reflexivity | discriminate].
Qed.

End WaitFacts.

(** X1. With at least one polling round, [wait_for_acks(msg_id)] returns
    [True] exactly when [msg_id] is no longer pending once all the ACKs of
    the wait have been handled: the number of rounds bounds the waiting
    time, not the outcome. *)
Theorem wait_for_acks_outcome_at_end :
  forall msg_id rounds pa,
  rounds <> [] ->
  MessageRouter.wait_for_acks msg_id rounds pa =
  negb (mem msg_id (MessageRouter.on_acks (concat rounds) pa)).
Proof. exact WaitFacts.outcome_at_end. Qed.

Lemma wait_for_acks_outcome_at_end_witness :
  [[{| MessageRouter.ack_id := "x"; MessageRouter.ack_from := "B" |}]; []] <> [] /\
  MessageRouter.wait_for_acks "m"
    [[{| MessageRouter.ack_id := "x"; MessageRouter.ack_from := "B" |}]; []]
    (MessageRouter.register_ack "m" ["A"] []) =
  negb (mem "m" (MessageRouter.on_acks
    (concat [[{| MessageRouter.ack_id := "x"; MessageRouter.ack_from := "B" |}]; []])
    (MessageRouter.register_ack "m" ["A"] []))).
Proof. split; [discriminate |]. apply wait_for_acks_outcome_at_end. discriminate. Defined.

(** X2. For a pending message (keys of [pending_acks] distinct, as a dict
    has them) and at least one polling round, [wait_for_acks] returns
    [True] exactly when some ACK for that message id, from any peer,
    arrives during the wait. *)
Theorem wait_for_acks_any_ack :
  forall msg_id rounds pa,
  NoDup (map fst pa) -> mem msg_id pa = true -> rounds <> [] ->
  MessageRouter.wait_for_acks msg_id rounds pa =
  existsb (fun a => String.eqb (MessageRouter.ack_id a) msg_id) (concat rounds).
Proof. exact WaitFacts.any_ack. Qed.

Lemma wait_for_acks_any_ack_witness :
  let pa := MessageRouter.register_ack "m" ["A"; "B"] [("old", [])] in
  let rounds := [[]; [{| MessageRouter.ack_id := "m"; MessageRouter.ack_from := "B" |}]] in
  NoDup (map fst pa) /\ mem "m" pa = true /\ rounds <> [] /\
  MessageRouter.wait_for_acks "m" rounds pa =
  existsb (fun a => String.eqb (MessageRouter.ack_id a) "m") (concat rounds).
Proof.
  intros pa rounds.
  assert (H1 : NoDup (map fst pa)) by (simpl; repeat constructor; simpl; intuition discriminate).
  assert (H2 : mem "m" pa = true) by reflexivity.
  assert (H3 : rounds <> []) by discriminate.
  split; [exact H1 |]. split; [exact H2 |]. split; [exact H3 |].
  exact (wait_for_acks_any_ack "m" rounds pa H1 H2 H3).
Defined.



(** ** [pythonEngine]: discovery listener and leader election *)
Module EngineFacts.
Import Engine KeyFacts.

Lemma listen_for_peers_app peers l1 l2 :
  listen_for_peers peers (l1 ++ l2) =
  let '(p, alive) := listen_for_peers peers l1 in
  if alive then listen_for_peers p l2 else (p, false).
Proof.
  revert peers. induction l1 as [|a t IH]; intros peers; simpl; [reflexivity |].
  destruct (listen_step peers a); [apply IH | reflexivity].
Qed.

Lemma py_max_from_in cur l : In (py_max_from cur l) (cur :: l).
Proof.
  revert cur. induction l as [|x t IH]; intros cur; simpl; [now left |].
  destruct (String.ltb cur x).
  - specialize (IH x). simpl in IH. tauto.
  - specialize (IH cur). simpl in IH. tauto.
Qed.

Lemma str_lt_trans a b c :
  String.compare a b = Lt -> String.compare b c = Lt -> String.compare a c = Lt.
Proof.
  rewrite !OrderedTypeEx.String_as_OT.cmp_lt.
  apply OrderedTypeEx.String_as_OT.lt_trans.
Qed.

Lemma str_not_lt_trans a b c :
  String.compare a b <> Lt -> String.compare b c <> Lt -> String.compare a c <> Lt.
Proof.
  intros H1 H2 H3.
  destruct (String.compare b c) eqn:E.
  - apply String.compare_eq_iff in E. subst. contradiction.
  - contradiction.
  - rewrite String.compare_antisym in E.
    destruct (String.compare c b) eqn:F; try discriminate.
    apply H1. exact (str_lt_trans a c b H3 F).
Qed.

Lemma py_max_from_greatest cur l :
  forall x, In x (cur :: l) -> String.compare (py_max_from cur l) x <> Lt.
Proof.
  revert cur. induction l as [|y t IH]; intros cur x Hx; simpl.
  - destruct Hx as [<-|[]].
    pose proof (proj2 (OrderedTypeEx.String_as_OT.cmp_eq cur cur) eq_refl) as E.
    unfold OrderedTypeEx.String_as_OT.cmp in E. rewrite E. discriminate.
  - unfold String.ltb. destruct (String.compare cur y) eqn:E.
    + apply String.compare_eq_iff in E. subst y.
      apply IH. destruct Hx as [<-|[<-|H]]; simpl; auto.
    + destruct Hx as [<-|Hx].
      * intros H. apply (IH y y (or_introl eq_refl)).
        exact (str_lt_trans _ _ _ H E).
      * apply IH. exact Hx.
    + destruct Hx as [<-|[<-|H]].
      * apply IH. now left.
      * apply (str_not_lt_trans _ cur); [apply IH; now left |].
        rewrite E. discriminate.
      * apply IH. now right.
Qed.

End EngineFacts.

(** X4. [listen_for_peers] keeps one entry per ip; while it runs, each ip
    maps to the [tcp_port] of the last datagram received from it (no
    filtering of the node's own announcements), and an ip nothing was
    received from keeps its earlier entry. *)
Theorem engine_listen_last_announcement_wins :
  forall peers anns,
  NoDup (map fst peers) ->
  let '(p', alive) := Engine.listen_for_peers peers anns in
  NoDup (map fst p') /\
  (alive = true -> forall ip,
     (get ip p' = get ip peers /\ Forall (fun a => Engine.an_ip a <> ip) anns) \/
     (exists pre a post info,
        anns = pre ++ a :: post /\ Engine.an_ip a = ip /\
        Forall (fun b => Engine.an_ip b <> ip) post /\
        Engine.an_info a = Some info /\ get ip p' = get "tcp_port" info)).
Proof.
  intros peers anns Hn.
  assert (Hnd : forall l p0, NoDup (map fst p0) ->
            NoDup (map fst (fst (Engine.listen_for_peers p0 l)))).
  { induction l as [|a t IH]; intros p0 H0; simpl; [exact H0 |].
    unfold Engine.listen_step.
    destruct (Engine.an_info a) as [info|]; [| exact H0].
    destruct (get "tcp_port" info); [| exact H0].
    apply IH. now apply KeyFacts.setitem_nodup. }
  pose proof (Hnd anns peers Hn) as Hn'.
  destruct (Engine.listen_for_peers peers anns) as [p' alive] eqn:Eq.
  split; [exact Hn' |]. clear Hn' Hnd.
  revert p' alive Eq. induction anns as [|a l IH] using rev_ind; intros p' alive Eq Ha ip.
  - simpl in Eq. inversion Eq; subst. left. split; [reflexivity | constructor].
  - rewrite EngineFacts.listen_for_peers_app in Eq.
    destruct (Engine.listen_for_peers peers l) as [p alive0] eqn:El.
    destruct alive0; [| inversion Eq; subst; discriminate].
    simpl in Eq. unfold Engine.listen_step in Eq.
    destruct (Engine.an_info a) as [info|] eqn:Ei; [| inversion Eq; subst; discriminate].
    destruct (get "tcp_port" info) as [port|] eqn:Ep; [| inversion Eq; subst; discriminate].
    inversion Eq; subst p' alive.
    destruct (string_dec (Engine.an_ip a) ip) as [<-|Hne].
    + right. exists l, a, [], info. repeat split; auto.
      rewrite DictFacts.get_setitem_same. now rewrite Ep.
    + rewrite DictFacts.get_setitem_other by congruence.
      destruct (IH p true eq_refl eq_refl ip) as [[J1 J2] | (pre & b & post & inf & K1 & K2 & K3 & K4 & K5)].
      * left. split; [exact J1 |]. apply Forall_app. split; [exact J2 |]. now repeat constructor.
      * right. exists pre, b, (post ++ [a]), inf. repeat split; auto.
        -- rewrite K1, <- app_assoc. reflexivity.
        -- apply Forall_app. split; [exact K3 |]. now repeat constructor.
Qed.

Lemma engine_listen_last_announcement_wins_witness :
  let peers := [("10.0.0.9", SInt 7000)] in
  let anns := [{| Engine.an_ip := "10.0.0.5"; Engine.an_info := Some [("tcp_port", SInt 5000)] |};
               {| Engine.an_ip := "10.0.0.5"; Engine.an_info := Some [("tcp_port", SInt 5001)] |}] in
  NoDup (map fst peers) /\
  (let '(p', alive) := Engine.listen_for_peers peers anns in
   NoDup (map fst p') /\
   (alive = true -> forall ip,
     (get ip p' = get ip peers /\ Forall (fun a => Engine.an_ip a <> ip) anns) \/
     (exists pre a post info,
        anns = pre ++ a :: post /\ Engine.an_ip a = ip /\
        Forall (fun b => Engine.an_ip b <> ip) post /\
        Engine.an_info a = Some info /\ get ip p' = get "tcp_port" info))).
Proof.
  intros peers anns.
  assert (H : NoDup (map fst peers)) by (repeat constructor; simpl; tauto).
  split; [exact H |]. exact (engine_listen_last_announcement_wins peers anns H).
Defined.

(** X5. Once [listen_for_peers] meets a datagram it cannot handle (not
    JSON, not an object, or without ["tcp_port"]), the exception ends the
    listener thread: no later announcement is ever registered. *)
Theorem engine_listener_stops_on_bad_datagram :
  forall peers pre bad post p,
  Engine.listen_for_peers peers pre = (p, true) ->
  Engine.listen_step p bad = None ->
  Engine.listen_for_peers peers (pre ++ bad :: post) = (p, false).
Proof.
  intros peers pre bad post p Hpre Hbad.
  rewrite EngineFacts.listen_for_peers_app, Hpre. simpl. now rewrite Hbad.
Qed.

Lemma engine_listener_stops_on_bad_datagram_witness :
  let bad := {| Engine.an_ip := "10.0.0.7"; Engine.an_info := Some [("port", SInt 5000)] |} in
  let good := {| Engine.an_ip := "10.0.0.8"; Engine.an_info := Some [("tcp_port", SInt 5000)] |} in
  Engine.listen_for_peers [] [] = ([], true) /\ Engine.listen_step [] bad = None /\
  Engine.listen_for_peers [] ([] ++ bad :: [good]) = ([], false).
Proof.
  intros bad good. split; [reflexivity |]. split; [reflexivity |].
  apply engine_listener_stops_on_bad_datagram; reflexivity.
Defined.

(** X6. [elect_leader()] always returns one of the known peer ips or the
    node's own ip, and no candidate is greater in Python's string order. *)
Theorem elect_leader_is_maximum :
  forall peers my_ip,
  exists w, Engine.elect_leader peers my_ip = Some w /\
    In w (map fst peers ++ [my_ip]) /\
    (forall c, In c (map fst peers ++ [my_ip]) -> String.compare w c <> Lt).
Proof.
  intros peers my_ip. unfold Engine.elect_leader, Engine.py_max.
  destruct (map fst peers ++ [my_ip]) as [|x t] eqn:E.
  - apply app_eq_nil in E. destruct E as [_ E]. discriminate.
  - exists (Engine.py_max_from x t). split; [reflexivity |]. split.
    + apply EngineFacts.py_max_from_in.
    + apply EngineFacts.py_max_from_greatest.
Qed.


(** ** [engine_api.do_POST] *)
Module PostFacts.
Import Engine StoreForward.

(** The [i]-th connection of the request to [(ip, port)] fails. *)
Definition fails (net : Host.network) (i : nat) (ip : string) (port : scalar) : bool :=
  match port_of port with Some p => negb (net i ip p) | None => true end.

Definition queue_of (ip : string) (sf : sf_state envelope) : list envelope :=
  match get ip (buffer sf) with Some q => q | None => [] end.

Lemma send_message_at_eq net i ip port msg sf :
  send_message_at net i ip port msg sf =
  if fails net i ip port then (false, buffer_message ip msg sf) else (true, sf).
Proof.
  unfold send_message_at, fails, Host.send_message.
  destruct (port_of port) as [p|]; [| reflexivity].
  rewrite Nat.add_0_r. destruct (net i ip p); reflexivity.
Qed.

Lemma buffer_message_get_same ip (msg : envelope) (sf : sf_state envelope) :
  get ip (buffer (buffer_message ip msg sf)) = Some (queue_of ip sf ++ [msg]).
Proof. apply DictFacts.get_setitem_same. Qed.

Lemma buffer_message_get_other ip ip' (msg : envelope) (sf : sf_state envelope) :
  ip' <> ip -> get ip' (buffer (buffer_message ip msg sf)) = get ip' (buffer sf).
Proof. intros H. now apply DictFacts.get_setitem_other. Qed.

Lemma send_all_saved net i msg targets sf :
  disk sf = Some (buffer sf) ->
  disk (send_all net i msg targets sf) = Some (buffer (send_all net i msg targets sf)).
Proof.
  revert i sf. induction targets as [|[ip port] t IH]; intros i sf H; simpl; [exact H |].
  rewrite send_message_at_eq. destruct (fails net i ip port); apply IH; [reflexivity | exact H].
Qed.

Lemma send_all_spec net msg targets :
  NoDup (map fst targets) -> forall i sf,
  (forall j ip port, nth_error targets j = Some (ip, port) ->
     get ip (buffer (send_all net i msg targets sf)) =
     if fails net (i + j) ip port then Some (queue_of ip sf ++ [msg])
     else get ip (buffer sf)) /\
  (forall ip, ~ In ip (map fst targets) ->
     get ip (buffer (send_all net i msg targets sf)) = get ip (buffer sf)) /\
  ((exists j ip port, nth_error targets j = Some (ip, port) /\ fails net (i + j) ip port = true) ->
     disk (send_all net i msg targets sf) = Some (buffer (send_all net i msg targets sf))).
Proof.
  induction targets as [|[ip0 p0] t IH]; intros Hn i sf.
  - split; [intros [|j]; discriminate |]. split; [reflexivity |].
    intros (j & ip & port & Hj & _). destruct j; discriminate.
  - simpl in Hn. inversion Hn as [|? ? Hni Hnt]; subst. simpl.
    rewrite send_message_at_eq.
    set (sf1 := if fails net i ip0 p0 then buffer_message ip0 msg sf else sf).
    replace (let '(_, sf') := if fails net i ip0 p0 then (false, buffer_message ip0 msg sf)
                              else (true, sf) in send_all net (S i) msg t sf')
      with (send_all net (S i) msg t sf1) by (unfold sf1; destruct (fails net i ip0 p0); reflexivity).
    destruct (IH Hnt (S i) sf1) as (H1 & H2 & H3).
    assert (Hsf1 : forall ip, ip <> ip0 -> get ip (buffer sf1) = get ip (buffer sf)).
    { intros ip Hip. unfold sf1. destruct (fails net i ip0 p0); [| reflexivity].
      now apply buffer_message_get_other. }
    split; [| split].
    + intros [|j] ip port Hj.
      * simpl in Hj. inversion Hj; subst ip port. rewrite (H2 ip0 Hni), Nat.add_0_r.
        unfold sf1. destruct (fails net i ip0 p0); [apply buffer_message_get_same | reflexivity].
      * simpl in Hj. rewrite (H1 j ip port Hj).
        assert (Hip : ip <> ip0).
        { intros ->. apply Hni. exact (in_map fst t (ip0, port) (nth_error_In t j Hj)). }
        replace (S i + j) with (i + S j) by lia.
        unfold queue_of. rewrite (Hsf1 ip Hip). reflexivity.
    + intros ip Hip. simpl in Hip. rewrite H2 by tauto. apply Hsf1. intuition.
    + intros (j & ip & port & Hj & Hf). destruct j as [|j].
      * simpl in Hj. inversion Hj; subst ip port. rewrite Nat.add_0_r in Hf.
        apply send_all_saved. unfold sf1. rewrite Hf. reflexivity.
      * apply H3. exists j, ip, port. split; [exact Hj |].
        replace (S i + j) with (i + S j) by lia. exact Hf.
Qed.

End PostFacts.

(** X8. [do_POST] leaves the peer directory as it is and sends the new
    envelope to every known peer once: the queue of a peer whose
    connection fails (or whose port is not a number) gets the envelope
    appended at its end, the queue of a reached peer and of any ip that
    is not a peer is unchanged, and after a failure the buffer file holds
    the whole in-memory buffer. *)
Theorem do_POST_buffers_failed_sends :
  forall e ty text uuid now net rounds,
  NoDup (map fst (Engine.e_peers e)) ->
  let e' := snd (Engine.do_POST e ty text uuid now net rounds) in
  let msg := Engine.create_message uuid now ty "UI" text in
  Engine.e_peers e' = Engine.e_peers e /\
  (forall j ip port, nth_error (Engine.e_peers e) j = Some (ip, port) ->
     get ip (StoreForward.buffer (Engine.e_sf e')) =
     if PostFacts.fails net j ip port
     then Some (PostFacts.queue_of ip (Engine.e_sf e) ++ [msg])
     else get ip (StoreForward.buffer (Engine.e_sf e))) /\
  (forall ip, ~ In ip (map fst (Engine.e_peers e)) ->
     get ip (StoreForward.buffer (Engine.e_sf e')) = get ip (StoreForward.buffer (Engine.e_sf e))) /\
  ((exists j ip port, nth_error (Engine.e_peers e) j = Some (ip, port) /\
      PostFacts.fails net j ip port = true) ->
   StoreForward.disk (Engine.e_sf e') = Some (StoreForward.buffer (Engine.e_sf e'))).
Proof.
  intros e ty text uuid now net rounds Hn e' msg.
  assert (He : Engine.e_peers e' = Engine.e_peers e /\
               Engine.e_sf e' = Engine.send_all net 0 msg (Engine.e_peers e) (Engine.e_sf e)).
  { unfold e', Engine.do_POST. simpl. destruct (String.eqb ty "SOS"); split; reflexivity. }
  destruct He as [Hp Hs]. rewrite Hs.
  destruct (PostFacts.send_all_spec net msg (Engine.e_peers e) Hn 0 (Engine.e_sf e))
    as (H1 & H2 & H3).
  split; [exact Hp |]. split; [exact H1 |]. split; [exact H2 | exact H3].
Qed.

Lemma do_POST_buffers_failed_sends_witness :
  let e := {| Engine.e_peers := [("10.0.0.1", SInt 5000); ("10.0.0.2", SStr "x")];
              Engine.e_pending := [];
              Engine.e_sf := {| StoreForward.buffer := [("10.0.0.2", [])];
                                StoreForward.disk := None |} |} in
  let net : Host.network := fun _ _ _ => true in
  NoDup (map fst (Engine.e_peers e)) /\
  (let e' := snd (Engine.do_POST e "INFO" "hi" "u1" (QArith_base.inject_Z 0) net []) in
   let msg := Engine.create_message "u1" (QArith_base.inject_Z 0) "INFO" "UI" "hi" in
   Engine.e_peers e' = Engine.e_peers e /\
   (forall j ip port, nth_error (Engine.e_peers e) j = Some (ip, port) ->
      get ip (StoreForward.buffer (Engine.e_sf e')) =
      if PostFacts.fails net j ip port
      then Some (PostFacts.queue_of ip (Engine.e_sf e) ++ [msg])
      else get ip (StoreForward.buffer (Engine.e_sf e))) /\
   (forall ip, ~ In ip (map fst (Engine.e_peers e)) ->
      get ip (StoreForward.buffer (Engine.e_sf e')) = get ip (StoreForward.buffer (Engine.e_sf e))) /\
   ((exists j ip port, nth_error (Engine.e_peers e) j = Some (ip, port) /\
       PostFacts.fails net j ip port = true) ->
    StoreForward.disk (Engine.e_sf e') = Some (StoreForward.buffer (Engine.e_sf e')))).
Proof.
  intros e net.
  assert (H : NoDup (map fst (Engine.e_peers e))) by (simpl; repeat constructor; simpl; intuition discriminate).
  split; [exact H |]. exact (do_POST_buffers_failed_sends e "INFO" "hi" "u1" (QArith_base.inject_Z 0) net [] H).
Defined.

(** X9. The answer of [do_POST]: for an SOS, with [pending_acks] keyed
    without duplicates and at least one polling round, it reports
    ["delivered": True] exactly when some ACK received during the rounds
    carries the new envelope's id (whoever sent it); any other type is
    answered [{"status": "sent"}]. *)
Theorem do_POST_response :
  forall e ty text uuid now net rounds,
  NoDup (map fst (Engine.e_pending e)) -> rounds <> [] ->
  fst (Engine.do_POST e ty text uuid now net rounds) =
  if String.eqb ty "SOS"
  then Engine.Delivered
         (existsb (fun a => String.eqb (MessageRouter.ack_id a) uuid) (concat rounds))
  else Engine.StatusSent.
Proof.
  intros e ty text uuid now net rounds Hn Hr. unfold Engine.do_POST. simpl.
  destruct (String.eqb ty "SOS"); [| reflexivity]. simpl. f_equal.
  apply WaitFacts.any_ack; [| | exact Hr].
  - unfold MessageRouter.register_ack. now apply KeyFacts.setitem_nodup.
  - unfold mem, MessageRouter.register_ack. now rewrite DictFacts.get_setitem_same.
Qed.

Lemma do_POST_response_witness :
  let e := {| Engine.e_peers := [("10.0.0.1", SInt 5000)];
              Engine.e_pending := [("old", ["10.0.0.1"])];
              Engine.e_sf := {| StoreForward.buffer := []; StoreForward.disk := None |} |} in
  let rounds := [[]; [{| MessageRouter.ack_id := "u1"; MessageRouter.ack_from := "10.0.0.9" |}]] in
  NoDup (map fst (Engine.e_pending e)) /\ rounds <> [] /\
  fst (Engine.do_POST e "SOS" "help" "u1" (QArith_base.inject_Z 0) (fun _ _ _ => false) rounds) =
  Engine.Delivered (existsb (fun a => String.eqb (MessageRouter.ack_id a) "u1") (concat rounds)).
Proof.
  intros e rounds.
  assert (H1 : NoDup (map fst (Engine.e_pending e))) by (simpl; repeat constructor; simpl; tauto).
  assert (H2 : rounds <> []) by discriminate.
  split; [exact H1 |]. split; [exact H2 |].
  exact (do_POST_response e "SOS" "help" "u1" (QArith_base.inject_Z 0) (fun _ _ _ => false) rounds H1 H2).
Defined.

(** ** [store_forward.py]: queues built by repeated [buffer_message] *)
Module BufferFacts.
Import StoreForward.

(** [for m in ms: buffer_message(ip, m)] *)
Definition buffer_all {msg} (ip : string) (ms : list msg) (s : sf_state msg) : sf_state msg :=
  fold_left (fun s m => buffer_message ip m s) ms s.

Definition queue {msg} (ip : string) (s : sf_state msg) : list msg :=
  match get ip (buffer s) with Some q => q | None => [] end.

Lemma buffer_all_same {msg} ip (m : msg) ms s :
  get ip (buffer (buffer_all ip (m :: ms) s)) = Some (queue ip s ++ m :: ms).
Proof.
  revert m s. induction ms as [|m' t IH]; intros m s.
  - apply DictFacts.get_setitem_same.
  - change (buffer_all ip (m :: m' :: t) s) with (buffer_all ip (m' :: t) (buffer_message ip m s)).
    rewrite IH. unfold queue at 1. simpl. unfold setdefault_append.
    rewrite DictFacts.get_setitem_same, <- app_assoc. reflexivity.
Qed.

Lemma buffer_all_other {msg} ip k (ms : list msg) s :
  k <> ip -> get k (buffer (buffer_all ip ms s)) = get k (buffer s).
Proof.
  intros Hk. revert s. induction ms as [|m t IH]; intros s; [reflexivity |].
  simpl. rewrite IH. simpl. now apply DictFacts.get_setitem_other.
Qed.

Lemma buffer_all_saved {msg} ip (m : msg) ms s :
  disk (buffer_all ip (m :: ms) s) = Some (buffer (buffer_all ip (m :: ms) s)).
Proof.
  revert m s. induction ms as [|m' t IH]; intros m s; [reflexivity |].
  apply (IH m' (buffer_message ip m s)).
Qed.

Lemma failed_of_none_ok {msg} i (l : list msg) :
  map snd (filter (fun '(j, m) => negb ((fun (_ : nat) (_ : msg) => false) j m))
                  (combine (seq i (length l)) l)) = l.
Proof.
  revert i. induction l as [|m t IH]; intros i; simpl; [reflexivity |]. now rewrite IH.
Qed.

End BufferFacts.

(** ** [host.py]: the peer directory *)
Module DirectoryFacts.
Import Host.

Lemma host_eta (hst : host) :
  {| host_peer_id := host_peer_id hst; peers := peers hst |} = hst.
Proof. destruct hst; reflexivity. Qed.

Lemma send_to_peer_cases hst net pid message :
  send_to_peer hst net pid message =
  match get pid (peers hst) with
  | None => (hst, [])
  | Some (ip, port) =>
      ((if net 0 ip port then hst
        else {| host_peer_id := host_peer_id hst; peers := pop pid (peers hst) |}),
       [{| at_peer := pid; at_ip := ip; at_port := port; at_payload := message;
           at_ok := net 0 ip port |}])
  end.
Proof.
  unfold send_to_peer. destruct (get pid (peers hst)) as [[ip port]|] eqn:E.
  - destruct (net 0 ip port); reflexivity.
  - rewrite (KeyFacts.pop_absent _ _ E). now rewrite host_eta.
Qed.

End DirectoryFacts.

(** ** [p2p/discovery.py]: the discovered set *)
Module DiscoverySetFacts.
Import Discovery.

Lemma listen_step_extends d dg : exists more, found (listen_step d dg) = found d ++ more.
Proof.
  destruct (DiscoveryFacts.listen_step_cases d dg) as [-> | (m & p & _ & _ & _ & _ & _ & _ & ->)].
  - exists []. now rewrite app_nil_r.
  - eexists. reflexivity.
Qed.

Lemma listen_extends dgs d : exists more, found (listen d dgs) = found d ++ more.
Proof.
  unfold listen. revert d. induction dgs as [|dg t IH]; intros d; simpl.
  - exists []. now rewrite app_nil_r.
  - destruct (listen_step_extends d dg) as [m1 E1]. destruct (IH (listen_step d dg)) as [m2 E2].
    exists (m1 ++ m2). rewrite E2, E1, app_assoc. reflexivity.
Qed.

End DiscoverySetFacts.

(** X10. Successive [buffer_message(ip, m)] calls queue the envelopes for
    [ip] in call order after what was already queued, leave every other
    queue alone and leave the file equal to the in-memory buffer; a
    [flush_buffer] in which every send fails keeps the whole queue. *)
Theorem buffer_message_fifo :
  forall (msg : Type) ip (ms : list msg) (s : StoreForward.sf_state msg),
  ms <> [] ->
  let s' := BufferFacts.buffer_all ip ms s in
  get ip (StoreForward.buffer s') = Some (BufferFacts.queue ip s ++ ms) /\
  (forall k, k <> ip -> get k (StoreForward.buffer s') = get k (StoreForward.buffer s)) /\
  StoreForward.disk s' = Some (StoreForward.buffer s') /\
  get ip (StoreForward.buffer (snd (StoreForward.flush_buffer ip (fun _ _ => false) s'))) =
    Some (BufferFacts.queue ip s ++ ms).
Proof.
  intros msg ip ms s Hne s'. destruct ms as [|m t]; [congruence |].
  assert (Hq : get ip (StoreForward.buffer s') = Some (BufferFacts.queue ip s ++ m :: t))
    by apply BufferFacts.buffer_all_same.
  split; [exact Hq |]. split; [intros k Hk; now apply BufferFacts.buffer_all_other |].
  split; [apply BufferFacts.buffer_all_saved |].
  rewrite StoreForwardFacts.flush_buffer_eq. simpl.
  rewrite DictFacts.get_setitem_same. unfold StoreForward.failed_of.
  rewrite BufferFacts.failed_of_none_ok, Hq. reflexivity.
Qed.

Lemma buffer_message_fifo_witness :
  let s := {| StoreForward.buffer := [("10.0.0.1", [1; 2]); ("10.0.0.2", [7])];
              StoreForward.disk := None |} in
  [3; 4] <> [] /\
  (let s' := BufferFacts.buffer_all "10.0.0.1" [3; 4] s in
   get "10.0.0.1" (StoreForward.buffer s') = Some (BufferFacts.queue "10.0.0.1" s ++ [3; 4]) /\
   (forall k, k <> "10.0.0.1" -> get k (StoreForward.buffer s') = get k (StoreForward.buffer s)) /\
   StoreForward.disk s' = Some (StoreForward.buffer s') /\
   get "10.0.0.1" (StoreForward.buffer
     (snd (StoreForward.flush_buffer "10.0.0.1" (fun _ _ => false) s'))) =
     Some (BufferFacts.queue "10.0.0.1" s ++ [3; 4])).
Proof.
  intros s. assert (H : [3; 4] <> @nil nat) by discriminate.
  split; [exact H |]. exact (buffer_message_fifo nat "10.0.0.1" [3; 4] s H).
Defined.

(** X11. [_send_to_peer(peer_id, message)] never changes the node's own
    id nor any directory entry but [peer_id]'s; for a peer id missing from
    the directory it sends nothing and leaves the directory as it was; for
    a known peer it makes exactly one attempt, to the directory's address,
    with the message as payload, and a successful attempt leaves the
    directory as it was. *)
Theorem send_to_peer_effects :
  forall hst net peer_id message,
  let '(hst', tr) := Host.send_to_peer hst net peer_id message in
  Host.host_peer_id hst' = Host.host_peer_id hst /\
  (forall k, k <> peer_id -> get k (Host.peers hst') = get k (Host.peers hst)) /\
  (get peer_id (Host.peers hst) = None -> hst' = hst /\ tr = []) /\
  (forall ip port, get peer_id (Host.peers hst) = Some (ip, port) ->
     tr = [{| Host.at_peer := peer_id; Host.at_ip := ip; Host.at_port := port;
              Host.at_payload := message; Host.at_ok := net 0 ip port |}] /\
     (net 0 ip port = true -> hst' = hst)).
Proof.
  intros hst net pid message. rewrite DirectoryFacts.send_to_peer_cases.
  destruct (get pid (Host.peers hst)) as [[ip port]|] eqn:E.
  - destruct (net 0 ip port) eqn:En; simpl.
    + split; [reflexivity |]. split; [reflexivity |]. split; [discriminate |].
      intros ip' port' Hg. inversion Hg; subst. split; [now rewrite En | reflexivity].
    + split; [reflexivity |]. split; [intros k Hk; now apply KeyFacts.get_pop_other |].
      split; [discriminate |]. intros ip' port' Hg. inversion Hg; subst.
      split; [now rewrite En | intros Hc; congruence].
  - split; [reflexivity |]. split; [reflexivity |]. split; [split; reflexivity |].
    intros ip port Hg; discriminate.
Qed.

(** X12. [connect_to_peer(peer_ip, peer_port, peer_id)] always returns
    [True]; it records [peer_id] at the given address and sends one
    handshake carrying the node's own id there; on a directory with
    distinct ids, afterwards the ids are still distinct, [peer_id] maps to
    the new address if the handshake got through and is gone otherwise,
    and every other entry is unchanged. *)
Theorem connect_to_peer_effects :
  forall hst net peer_ip peer_port peer_id,
  NoDup (map fst (Host.peers hst)) ->
  let '(ok, hst', tr) := Host.connect_to_peer hst net peer_ip peer_port peer_id in
  ok = true /\
  Host.host_peer_id hst' = Host.host_peer_id hst /\
  NoDup (map fst (Host.peers hst')) /\
  get peer_id (Host.peers hst') =
    (if net 0 peer_ip peer_port then Some (peer_ip, peer_port) else None) /\
  (forall k, k <> peer_id -> get k (Host.peers hst') = get k (Host.peers hst)) /\
  tr = [{| Host.at_peer := peer_id; Host.at_ip := peer_ip; Host.at_port := peer_port;
           Host.at_payload := [("type", VScalar (SStr "handshake"));
                               ("peer_id", VScalar (SStr (Host.host_peer_id hst)))];
           Host.at_ok := net 0 peer_ip peer_port |}].
Proof.
  intros hst net ip port pid Hn. unfold Host.connect_to_peer.
  rewrite DirectoryFacts.send_to_peer_cases. simpl.
  rewrite DictFacts.get_setitem_same.
  assert (Hn1 : NoDup (map fst (setitem pid (ip, port) (Host.peers hst))))
    by now apply KeyFacts.setitem_nodup.
  destruct (net 0 ip port); simpl.
  - split; [reflexivity |]. split; [reflexivity |]. split; [exact Hn1 |].
    split; [apply DictFacts.get_setitem_same |]. split; [| reflexivity].
    intros k Hk. now apply DictFacts.get_setitem_other.
  - split; [reflexivity |]. split; [reflexivity |]. split; [now apply KeyFacts.pop_nodup |].
    split; [now apply KeyFacts.get_pop_same |]. split; [| reflexivity].
    intros k Hk. rewrite KeyFacts.get_pop_other by exact Hk.
    now apply DictFacts.get_setitem_other.
Qed.

Lemma connect_to_peer_effects_witness :
  let hst := {| Host.host_peer_id := "me"; Host.peers := [("p1", ("10.0.0.2", 9000%Z))] |} in
  let net : Host.network := fun _ ip _ => String.eqb ip "10.0.0.3" in
  NoDup (map fst (Host.peers hst)) /\
  (let '(ok, hst', tr) := Host.connect_to_peer hst net "10.0.0.3" 9001%Z "p2" in
   ok = true /\
   Host.host_peer_id hst' = Host.host_peer_id hst /\
   NoDup (map fst (Host.peers hst')) /\
   get "p2" (Host.peers hst') =
     (if net 0 "10.0.0.3" 9001%Z then Some ("10.0.0.3", 9001%Z) else None) /\
   (forall k, k <> "p2" -> get k (Host.peers hst') = get k (Host.peers hst)) /\
   tr = [{| Host.at_peer := "p2"; Host.at_ip := "10.0.0.3"; Host.at_port := 9001%Z;
            Host.at_payload := [("type", VScalar (SStr "handshake"));
                                ("peer_id", VScalar (SStr (Host.host_peer_id hst)))];
            Host.at_ok := net 0 "10.0.0.3" 9001%Z |}]).
Proof.
  intros hst net.
  assert (H : NoDup (map fst (Host.peers hst))) by (repeat constructor; simpl; tauto).
  split; [exact H |]. exact (connect_to_peer_effects hst net "10.0.0.3" 9001%Z "p2" H).
Defined.

(** X13. [get_discovered_peers()] holds exactly the peer ids passed to
    [on_peer_found] so far; a peer once discovered stays discovered, and
    the callbacks of a longer run extend those of a shorter one. *)
Theorem discovered_peers_are_reported_and_kept :
  forall pid rdv dgs dgs',
  let d := Discovery.listen (Discovery.start pid rdv) dgs in
  let d' := Discovery.listen d dgs' in
  (forall x, In x (Discovery.discovered_peers d) <->
             In x (map DiscoveryFacts.id_of (Discovery.found d))) /\
  (exists more, Discovery.found d' = Discovery.found d ++ more) /\
  (forall x, In x (Discovery.discovered_peers d) -> In x (Discovery.discovered_peers d')).
Proof.
  intros pid rdv dgs dgs' d d'.
  assert (Hi : DiscoveryFacts.inv pid rdv d).
  { apply DiscoveryFacts.listen_inv. unfold DiscoveryFacts.inv. simpl.
    repeat split; constructor. }
  assert (Hi' : DiscoveryFacts.inv pid rdv d') by now apply DiscoveryFacts.listen_inv.
  destruct Hi as (_ & _ & Hd & _). destruct Hi' as (_ & _ & Hd' & _).
  destruct (DiscoverySetFacts.listen_extends dgs' d) as [more Hm].
  split; [| split; [exists more; exact Hm |]].
  - intros x. rewrite Hd. split; [apply in_rev | intros Hx; apply in_rev; now rewrite rev_involutive].
  - intros x Hx. rewrite Hd'. fold d' in Hm. rewrite Hm, map_app.
    rewrite Hd in Hx. apply in_rev in Hx. apply in_rev. rewrite rev_involutive.
    apply in_or_app. now left.
Qed.

(** X14. Building a [ChatMessage] from the keywords of [asdict(c)] gives [c] back, except that a [None]
    timestamp is replaced by the time of the call. *)
Theorem chat_message_asdict_roundtrip :
  forall c now,
  ChatRoom.mk_chat_message (VDict (ChatRoom.asdict c)) now =
  Some {| ChatRoom.Message := ChatRoom.Message c; ChatRoom.SenderID := ChatRoom.SenderID c;
          ChatRoom.SenderNick := ChatRoom.SenderNick c;
          ChatRoom.Timestamp := match ChatRoom.Timestamp c with
                                | SNone => SStr now | t => t end |}.
Proof. intros [m s n t] now. destruct t; reflexivity. Qed.

(** X15. What one room publishes is what another node's room logs: the
    payload of every attempt of [publish(text)] on room A, handed to
    [_handle_incoming_message] of room B, leaves B's log as it was when the
    room names differ, when both rooms have the same peer id, or when B
    already holds an entry with the same sender, text and timestamp, and
    otherwise appends A's [ChatMessage] to it. *)
Theorem publish_then_receive :
  forall rA hst net h text t rB now,
  let c := {| ChatRoom.Message := SStr text; ChatRoom.SenderID := SStr (ChatRoom.room_peer_id rA);
              ChatRoom.SenderNick := SStr (ChatRoom.nickname rA);
              ChatRoom.Timestamp := SStr t |} in
  let '(_, _, _, _, tr) := ChatRoom.publish rA hst net h text t in
  Forall (fun a =>
    ChatRoom.handle_incoming_message rB now (Host.at_payload a) =
    if negb (String.eqb (ChatRoom.room_name rA) (ChatRoom.room_name rB))
       || String.eqb (ChatRoom.room_peer_id rA) (ChatRoom.room_peer_id rB)
       || existsb (ChatRoom.same_tuple c) (ChatRoom.messages rB)
    then rB
    else ChatRoom.with_messages rB (ChatRoom.messages rB ++ [c])) tr.
Proof.
  intros rA hst net h text t rB now c.
  unfold ChatRoom.publish. fold c.
  set (bd := [("type", VScalar (SStr "chat_message"));
              ("room", VScalar (SStr (ChatRoom.room_name rA)));
              ("data", VDict (ChatRoom.asdict c))]).
  assert (Hn : nth_error (h ++ [bd]) (length h) = Some bd).
  { rewrite nth_error_app2 by lia. rewrite Nat.sub_diag. reflexivity. }
  rewrite (HostFacts.broadcast_message_eq hst net (length h) (h ++ [bd]) bd Hn).
  cbv zeta.
  set (message' := setitem "peer_id" _ bd).
  pose proof (HostFacts.broadcast_loop_spec net 0 message' (Host.peers hst)) as Hs.
  destruct (Host.broadcast_loop _ _ _ _) as [n tr].
  destruct Hs as (_ & _ & Hp).
  eapply Forall_impl; [| exact Hp]. intros a Ha. rewrite Ha.
  unfold message', bd, c. unfold ChatRoom.handle_incoming_message, get_is_str. simpl.
  destruct (String.eqb (ChatRoom.room_name rA) (ChatRoom.room_name rB)); simpl; [| reflexivity].
  destruct (String.eqb (ChatRoom.room_peer_id rA) (ChatRoom.room_peer_id rB)); reflexivity.
Qed.

(** ** [store_forward.py]: every mutation reaches the file *)
Module PersistFacts.
Import StoreForward.

(** The module's mutating entry points. *)
Inductive sf_op (msg : Type) :=
  | SfBuffer (ip : string) (m : msg)
  | SfFlush (ip : string) (send_func : nat -> msg -> bool).
Arguments SfBuffer {msg}. Arguments SfFlush {msg}.

Definition sf_step {msg} (s : sf_state msg) (op : sf_op msg) : sf_state msg :=
  match op with
  | SfBuffer ip m => buffer_message ip m s
  | SfFlush ip f => snd (flush_buffer ip f s)
  end.

Definition run_sf {msg} (s : sf_state msg) (ops : list (sf_op msg)) : sf_state msg :=
  fold_left sf_step ops s.

Lemma sf_step_saved {msg} (s : sf_state msg) op : disk (sf_step s op) = Some (buffer (sf_step s op)).
Proof.
  destruct op as [ip m | ip f]; simpl; [reflexivity |].
  rewrite StoreForwardFacts.flush_buffer_eq. reflexivity.
Qed.

Lemma run_sf_saved {msg} (s : sf_state msg) op ops :
  disk (run_sf s (op :: ops)) = Some (buffer (run_sf s (op :: ops))).
Proof.
  unfold run_sf. simpl. revert op s. induction ops as [|op' t IH]; intros op s; simpl.
  - apply sf_step_saved.
  - apply IH.
Qed.

End PersistFacts.

(** X16. The handshake [connect_to_peer] sends is never logged by a chat
    room: handed to [_handle_incoming_message] of any room, its payload
    (type ["handshake"]) leaves the room as it was. *)
Theorem handshake_never_logged :
  forall hst net peer_ip peer_port peer_id r now,
  let '(_, _, tr) := Host.connect_to_peer hst net peer_ip peer_port peer_id in
  Forall (fun a => ChatRoom.handle_incoming_message r now (Host.at_payload a) = r) tr.
Proof.
  intros hst net ip port pid r now. unfold Host.connect_to_peer.
  rewrite DirectoryFacts.send_to_peer_cases. simpl.
  rewrite DictFacts.get_setitem_same.
  destruct (net 0 ip port); simpl; repeat constructor.
Qed.

(** X20. Every room reached from [join_chat_room] through [publish],
    inbound envelopes and [clear_messages] keeps its name and peer id and
    holds at most one entry per remote [(SenderID, Message, Timestamp)]
    (under Python [==]). *)
Theorem room_log_invariant :
  forall hst h ops name nick pid,
  let r := ChatRoom.run_room hst h (ChatRoom.new_room name nick pid) ops in
  ChatRoom.room_name r = name /\ ChatRoom.room_peer_id r = pid /\
  (forall c, py_eq (ChatRoom.SenderID c) (SStr pid) = false ->
     length (filter (ChatRoom.same_tuple c) (ChatRoom.messages r)) <= 1).
Proof.
  intros hst h ops name nick pid r.
  destruct (ChatFacts.run_room_invariant hst h ops (ChatRoom.new_room name nick pid))
    as (Hu & Hn & Hp).
  - intros c _. simpl. lia.
  - split; [exact Hn |]. split; [exact Hp |].
    intros c Hc. apply Hu. unfold r in *. rewrite Hp. exact Hc.
Qed.

(** X17. [buffer_message] and [flush_buffer] both end with [save_buffer()]:
    after any non-empty sequence of them, a restart that reloads the file
    gives back exactly the state the node had. *)
Theorem store_forward_restart_after_ops :
  forall (msg : Type) (s : StoreForward.sf_state msg) ops,
  ops <> [] ->
  StoreForward.restart (PersistFacts.run_sf s ops) = PersistFacts.run_sf s ops.
Proof.
  intros msg s [|op ops] Hne; [congruence |].
  pose proof (PersistFacts.run_sf_saved s op ops) as H.
  destruct (PersistFacts.run_sf s (op :: ops)) as [b d]. simpl in H. subst d.
  reflexivity.
Qed.

Lemma store_forward_restart_after_ops_witness :
  let ops := [PersistFacts.SfBuffer "10.0.0.1" 1; PersistFacts.SfBuffer "10.0.0.2" 2;
              PersistFacts.SfFlush "10.0.0.1" (fun i _ => Nat.eqb i 0)] in
  ops <> [] /\
  StoreForward.restart (PersistFacts.run_sf {| StoreForward.buffer := [];
                                                StoreForward.disk := None |} ops) =
  PersistFacts.run_sf {| StoreForward.buffer := []; StoreForward.disk := None |} ops.
Proof.
  intros ops. assert (H : ops <> []) by discriminate.
  split; [exact H |]. exact (store_forward_restart_after_ops nat _ ops H).
Defined.

(** X18. [_handle_incoming_message] drops, leaving the log as it was, a
    chat message whose ["data"] is missing, is not an object, has a key
    that is not a [ChatMessage] field, or lacks one of ["Message"],
    ["SenderID"], ["SenderNick"] (the [TypeError] of the constructor is
    caught). *)
Theorem malformed_chat_data_dropped :
  forall r now md,
  (forall d, ChatRoom.inbound_data md = VDict d ->
     (exists k, In k (map fst d) /\ ~ In k ChatRoom.field_names) \/
     get "Message" d = None \/ get "SenderID" d = None \/ get "SenderNick" d = None) ->
  ChatRoom.handle_incoming_message r now md = r.
Proof.
  intros r now md Hd.
  assert (Hm : ChatRoom.mk_chat_message (ChatRoom.inbound_data md) now = None).
  { destruct (ChatRoom.inbound_data md) as [x|d] eqn:Ed; [reflexivity |].
    specialize (Hd d eq_refl). simpl.
    destruct (forallb _ d) eqn:Ef; [| reflexivity].
    destruct Hd as [(k & Hk & Hnk) | [H | [H | H]]].
    - exfalso. apply Hnk. rewrite forallb_forall in Ef.
      apply in_map_iff in Hk. destruct Hk as [[k' v] [Hk' Hin]]. simpl in Hk'. subst k'.
      specialize (Ef (k, v) Hin). simpl in Ef. unfold ChatRoom.field_names.
      repeat (apply Bool.orb_true_iff in Ef; destruct Ef as [Ef | Ef];
              [apply String.eqb_eq in Ef; subst k; simpl; tauto |]).
      discriminate.
    - now rewrite H.
    - rewrite H. now destruct (get "Message" d).
    - rewrite H. destruct (get "Message" d), (get "SenderID" d); reflexivity. }
  unfold ChatRoom.handle_incoming_message. rewrite Hm.
  destruct (negb (get_is_str "type" md "chat_message")); [reflexivity |].
  destruct (negb (get_is_str "room" md (ChatRoom.room_name r))); reflexivity.
Qed.

Lemma malformed_chat_data_dropped_witness :
  let r := ChatRoom.new_room "general" "alice" "p1" in
  let md := [("type", VScalar (SStr "chat_message")); ("room", VScalar (SStr "general"));
             ("data", VDict [("Message", SStr "hi"); ("SenderID", SStr "p2")])] in
  (forall d, ChatRoom.inbound_data md = VDict d ->
     (exists k, In k (map fst d) /\ ~ In k ChatRoom.field_names) \/
     get "Message" d = None \/ get "SenderID" d = None \/ get "SenderNick" d = None) /\
  ChatRoom.handle_incoming_message r "t" md = r.
Proof.
  intros r md.
  assert (H : forall d, ChatRoom.inbound_data md = VDict d ->
     (exists k, In k (map fst d) /\ ~ In k ChatRoom.field_names) \/
     get "Message" d = None \/ get "SenderID" d = None \/ get "SenderNick" d = None).
  { intros d Hd. simpl in Hd. inversion Hd; subst d. right. right. right. reflexivity. }
  split; [exact H |]. exact (malformed_chat_data_dropped r "t" md H).
Defined.

(** X19. An ACK whose id is no longer (or never was) in [pending_acks],
    such as a second ACK for the same SOS, leaves [pending_acks] as it
    was and is not answered. *)
Theorem late_ack_ignored :
  forall pa msg k ack_uuid ack_now,
  Engine.type msg = "ACK" ->
  get "ack_id" (Engine.payload msg) = Some (SStr k) ->
  get k pa = None ->
  Engine.handle_client pa (Some msg) ack_uuid ack_now = (pa, None).
Proof.
  intros pa msg k u t Ht Hk Hp. unfold Engine.handle_client.
  rewrite Ht. simpl. rewrite Hk. unfold MessageRouter.handle_ack.
  now rewrite (KeyFacts.pop_absent _ _ Hp).
Qed.

Lemma late_ack_ignored_witness :
  let msg := {| Engine.id := "a2"; Engine.type := "ACK"; Engine.sender := "local";
                Engine.timestamp := QArith_base.inject_Z 0;
                Engine.payload := [("text", SStr ""); ("ack_id", SStr "s1")] |} in
  let pa := [("s2", ["10.0.0.1"])] in
  Engine.type msg = "ACK" /\ get "ack_id" (Engine.payload msg) = Some (SStr "s1") /\
  get "s1" pa = None /\
  Engine.handle_client pa (Some msg) "a3" (QArith_base.inject_Z 0) = (pa, None).
Proof.
  intros msg pa.
  assert (H1 : Engine.type msg = "ACK") by reflexivity.
  assert (H2 : get "ack_id" (Engine.payload msg) = Some (SStr "s1")) by reflexivity.
  assert (H3 : get "s1" pa = None) by reflexivity.
  split; [exact H1 |]. split; [exact H2 |]. split; [exact H3 |].
  exact (late_ack_ignored pa msg "s1" "a3" (QArith_base.inject_Z 0) H1 H2 H3).
Defined.

(** ** [pythonEngine]: the leader over the discovered peers *)
Module LeaderFacts.
Import Engine.

Lemma keys_setitem_incl {V} x k (v : V) d :
  x = k \/ In x (map fst d) -> In x (map fst (setitem k v d)).
Proof.
  intros H.
  assert (Hg : get x (setitem k v d) <> None).
  { destruct (String.eqb_spec x k) as [->|Hne].
    - rewrite DictFacts.get_setitem_same. discriminate.
    - rewrite DictFacts.get_setitem_other by exact Hne.
      destruct H as [H|H]; [contradiction |].
      intros Hn. apply KeyFacts.get_in_keys in Hn. contradiction. }
  destruct (in_dec string_dec x (map fst (setitem k v d))) as [Hi|Hi]; [exact Hi |].
  apply KeyFacts.get_in_keys in Hi. contradiction.
Qed.

Lemma listen_keys anns : forall peers p alive,
  listen_for_peers peers anns = (p, alive) ->
  (forall x, In x (map fst peers) -> In x (map fst p)) /\
  (alive = true -> forall a, In a anns -> In (an_ip a) (map fst p)).
Proof.
  induction anns as [|a t IH]; intros peers p alive E; simpl in E.
  - inversion E; subst. split; [tauto | intros _ a []].
  - unfold listen_step in E.
    destruct (an_info a) as [info|]; [| inversion E; subst; split; [tauto | discriminate]].
    destruct (get "tcp_port" info) as [port|]; [| inversion E; subst; split; [tauto | discriminate]].
    destruct (IH _ _ _ E) as [H1 H2]. split.
    + intros x Hx. apply H1. apply keys_setitem_incl. now right.
    + intros Ha b [<-|Hb].
      * apply H1. apply keys_setitem_incl. now left.
      * now apply H2.
Qed.

End LeaderFacts.

(** X21. The leader [elect_leader()] picks after [listen_for_peers] is
    never below, in Python's string order, the node's own ip, an ip known
    before, or (while the listener still runs) any ip a datagram came
    from, the node's own announcements included. *)
Theorem leader_dominates_discovered :
  forall peers anns my_ip,
  let '(p, alive) := Engine.listen_for_peers peers anns in
  exists w, Engine.elect_leader p my_ip = Some w /\
    String.compare w my_ip <> Lt /\
    (forall k, In k (map fst peers) -> String.compare w k <> Lt) /\
    (alive = true -> forall a, In a anns -> String.compare w (Engine.an_ip a) <> Lt).
Proof.
  intros peers anns my_ip.
  destruct (Engine.listen_for_peers peers anns) as [p alive] eqn:E.
  destruct (LeaderFacts.listen_keys anns peers p alive E) as [H1 H2].
  unfold Engine.elect_leader, Engine.py_max.
  assert (Hm : In my_ip (map fst p ++ [my_ip])) by (apply in_or_app; right; now left).
  assert (Hk : forall k, In k (map fst peers) -> In k (map fst p ++ [my_ip]))
    by (intros k Hk; apply in_or_app; left; now apply H1).
  assert (Ha : alive = true -> forall a, In a anns -> In (Engine.an_ip a) (map fst p ++ [my_ip]))
    by (intros Hal a Hin; apply in_or_app; left; now apply H2).
  destruct (map fst p ++ [my_ip]) as [|x t] eqn:Ep; [destruct Hm |].
  exists (Engine.py_max_from x t). split; [reflexivity |].
  split; [| split].
  - now apply EngineFacts.py_max_from_greatest.
  - intros k Hin. apply EngineFacts.py_max_from_greatest. now apply Hk.
  - intros Hal a Hin. apply EngineFacts.py_max_from_greatest. now apply Ha.
Qed.
